(** * fragile.core.base_classes: the batched state container and the
      abstract collaborators of the swarm

    A shallow embedding of [src/fragile/core/base_classes.py].  Python
    exceptions are results of an error monad, objects are records that are
    passed explicitly, numpy arrays are a shape with row-major data, and a
    generator is the state it is suspended in together with a [next]
    function that resumes it against the current state of [self].

    The attributes of a container are numpy arrays over a scalar type [T]
    that is left open; the arrays that one call brings together have one
    dtype, so that numpy copies their elements and converts none. *)

From stdpp Require Import gmap strings list fin_maps.
From Stdlib Require Import ZArith Lia.

Local Open Scope Z_scope.
Local Open Scope nat_scope.

(** ** Exceptions *)

Module Py.

(** The exceptions that the module and the numpy calls it makes can raise.
    [ShapeMismatch] is an error kind of the specification; nothing in
    [base_classes.py] raises it. *)
Inductive exn : Type :=
| AttributeError
| TypeError (msg : string)
| NotImplementedError
| IndexError
| ValueError
| ShapeMismatch.

Inductive result (A : Type) : Type :=
| Ok (a : A)
| Raise (e : exn).

Arguments Ok {A} a.
Arguments Raise {A} e.

#[global] Instance result_ret : MRet result := @Ok.

#[global] Instance result_bind : MBind result :=
  λ A B f m, match m with Ok a => f a | Raise e => Raise e end.

#[global] Instance result_fmap : FMap result :=
  λ A B f m, match m with Ok a => Ok (f a) | Raise e => Raise e end.

Definition is_ok {A} (r : result A) : bool :=
  match r with Ok _ => true | Raise _ => false end.

(** A list comprehension whose body can raise: elements are evaluated left
    to right and the first exception aborts the comprehension. *)
Fixpoint traverse {A B} (f : A → result B) (l : list A) : result (list B) :=
  match l with
  | [] => Ok []
  | x :: xs => y ← f x; ys ← traverse f xs; Ok (y :: ys)
  end.

(** A [for] loop that threads an accumulator and can raise. *)
Fixpoint for_each {A B} (f : B → A → result B) (l : list A) (acc : B) : result B :=
  match l with
  | [] => Ok acc
  | x :: xs => acc' ← f acc x; for_each f xs acc'
  end.

(** A Python [dict] keeps insertion order; assigning to a key that is
    already present replaces the value in place. *)
Fixpoint dict_set {V} (d : list (string * V)) (k : string) (v : V) : list (string * V) :=
  match d with
  | [] => [(k, v)]
  | (k', v') :: d' =>
      if decide (k = k') then (k', v) :: d' else (k', v') :: dict_set d' k v
  end.

(** [dict(pairs)] *)
Definition dict {V} (pairs : list (string * V)) : list (string * V) :=
  foldl (λ d kv, dict_set d kv.1 kv.2) [] pairs.

(** [sum(l)] over Python integers. *)
Definition sum (l : list Z) : Z := foldr Z.add 0%Z l.

End Py.

Export Py.

(** ** numpy arrays *)

Module np.

Section ndarray.
Context {T : Type}.

(** An array is its shape and its elements in row-major order.  A numpy
    scalar (what indexing a one-dimensional array returns) is the array of
    shape [()]. *)
Record ndarray : Type := array { shape : list nat; data : list T }.

(** Number of elements of an array of shape [sh]. *)
Definition size_of (sh : list nat) : nat := foldr Nat.mul 1 sh.

(** [a[i]] for an integer [i >= 0]: the [i]-th slice along the first axis. *)
Definition getitem (a : ndarray) (i : nat) : result ndarray :=
  match shape a with
  | [] => Raise IndexError
  | d :: rest =>
      if decide (i < d)
      then Ok (array rest (take (size_of rest) (drop (i * size_of rest) (data a))))
      else Raise IndexError
  end.

(** The value of [a[i]] when [i] is within the first axis. *)
Definition row (a : ndarray) (i : nat) : ndarray :=
  let rest := tail (shape a) in
  array rest (take (size_of rest) (drop (i * size_of rest) (data a))).

(** [np.concatenate(arrays)] along axis 0: at least one array, none of
    them zero-dimensional, all with the same trailing shape. *)
Definition concatenate (arrays : list ndarray) : result ndarray :=
  match arrays with
  | [] => Raise ValueError
  | a0 :: _ =>
      if bool_decide (Exists (λ a, shape a = []) arrays) then Raise ValueError
      else if bool_decide (Forall (λ a, tail (shape a) = tail (shape a0)) arrays)
      then Ok (array (sum_list ((λ a, hd 0 (shape a)) <$> arrays) :: tail (shape a0))
                     (concat (data <$> arrays)))
      else Raise ValueError
  end.

(** [a.reshape(newshape)].  One entry of [newshape] may be negative, it is
    then the unknown dimension that numpy infers from the size; two
    negative entries are an error.  The element order does not change. *)
Definition reshape (a : ndarray) (newshape : list Z) : result ndarray :=
  let known := filter (λ d, (0 ≤ d)%Z) newshape in
  let unknown := filter (λ d, (d < 0)%Z) newshape in
  let known_size := size_of (Z.to_nat <$> known) in
  match unknown with
  | [] =>
      if decide (known_size = length (data a))
      then Ok (array (Z.to_nat <$> newshape) (data a))
      else Raise ValueError
  | [_] =>
      if decide (known_size ≠ 0 ∧ length (data a) `mod` known_size = 0)
      then Ok (array ((λ d, if decide (d < 0)%Z
                            then length (data a) `div` known_size
                            else Z.to_nat d) <$> newshape)
                     (data a))
      else Raise ValueError
  | _ => Raise ValueError
  end.

(** The arrays of shape [sh] stacked along a new first axis. *)
Definition stack (sh : list nat) (arrays : list ndarray) : ndarray :=
  array (length arrays :: sh) (concat (data <$> arrays)).

(** [np.array(l)] for a flat list or tuple of scalars. *)
Definition of_list (l : list T) : ndarray := array [length l] l.

(** The invariant numpy keeps: as many elements as the shape says. *)
Definition wf (a : ndarray) : Prop := length (data a) = size_of (shape a).

End ndarray.

Arguments ndarray T : clear implicits.

End np.

(** ** class BaseStates *)

Module BaseStates.

Section BaseStates.
Context {T : Type}.

(** An instance: the three attributes that [__init__] sets itself, and the
    part of the instance [__dict__] that holds the arrays bound by
    [setattr].  [_attr_dict] is the dictionary of the keyword arguments; no
    method reads it or writes to it. *)
Record t : Type := instance {
  _names : list string;
  _attr_dict : list (string * np.ndarray T);
  attrs : gmap string (np.ndarray T);
  _n_walkers : Z
}.

(** The state a generator is suspended in.  The generator expressions of
    [keys], [vals] and [items] hold the iterator over [self._names]; the
    generator functions [itervals], [iteritems] and [split_states] hold
    their program point. *)
Inductive loop_pc : Type :=
| PcStart
| PcLoop (i stop : nat)
| PcDone.

Inductive generator : Type :=
| GenKeys (it : list string)
| GenVals (it : list string)
| GenItems (it : list string)
| GenItervals (pc : loop_pc)
| GenIteritems (pc : loop_pc)
| GenSplitStates (pc : loop_pc).

(** The Python values that the methods hand to their caller. *)
#[warnings="-register-all"]
Inductive value : Type :=
| VNone
| VInt (z : Z)
| VStr (s : string)
| VArray (a : np.ndarray T)
| VDict (d : list (string * np.ndarray T))
| VMember (name : string)
| VList (l : list value)
| VTuple (l : list value)
| VStates (s : t).

(** What [item] can be in [self[item]]: a string, a list of strings, or an
    object of another type, of which only its formatted text matters. *)
Inductive index : Type :=
| IStr (s : string)
| IList (l : list string)
| IOther (repr : string).

(** Names bound on the class: what the [class] statement defines, and what
    every instance inherits from [object] (CPython 3.11). *)
Definition class_members : list string :=
  [ "__init__"; "__getitem__"; "__setitem__"; "__repr__"; "concat_states";
    "get"; "keys"; "vals"; "items"; "itervals"; "iteritems"; "split_states";
    "params_to_arrays"; "clone"; "update"; "get_params_dict";
    "__module__"; "__doc__"; "__dict__"; "__weakref__";
    "__class__"; "__delattr__"; "__dir__"; "__eq__"; "__format__"; "__ge__";
    "__getattribute__"; "__getstate__"; "__gt__"; "__hash__";
    "__init_subclass__"; "__le__"; "__lt__"; "__ne__"; "__new__";
    "__reduce__"; "__reduce_ex__"; "__setattr__"; "__sizeof__"; "__str__";
    "__subclasshook__" ]%string.

(** Names that cannot be used for an array of the container: the property
    [n], the attributes [__init__] sets itself, the class members, and the
    parameter names of [__init__], which a keyword argument cannot carry. *)
Definition reserved : list string :=
  [ "n"; "_names"; "_attr_dict"; "_n_walkers"; "self"; "batch_size";
    "state_dict" ]%string ++ class_members.

Definition attr_name_ok (name : string) : Prop := name ∉ reserved.

(** [@property n] *)
Definition n (self : t) : Z := _n_walkers self.

(** [setattr(self, key, val)] on the instance dictionary.  [n] is a
    property without a setter.  This is what the code does for a key that
    is [attr_name_ok]; under another reserved key the code rebinds an
    attribute that [__init__] set or shadows a method, which the record
    does not follow, so the properties below take such keys out. *)
Definition setattr (d : gmap string (np.ndarray T)) (key : string)
    (val : np.ndarray T) : result (gmap string (np.ndarray T)) :=
  if decide (key = "n"%string) then Raise AttributeError
  else Ok (<[key := val]> d).

(** The instance dictionary after [setattr] of every pair of [kwargs], in
    order. *)
Definition bind_all (kwargs : list (string * np.ndarray T))
    (d : gmap string (np.ndarray T)) : gmap string (np.ndarray T) :=
  foldl (λ d kv, <[kv.1 := kv.2]> d) d kwargs.

(** [getattr(self, name)]: the property, then the instance dictionary, then
    the class.  The attributes that [__init__] set are read from their
    fields, which is the lookup of the code on a container that is [wf]
    (nothing else is bound under a reserved name). *)
Definition getattr (self : t) (name : string) : result value :=
  if decide (name = "n"%string) then Ok (VInt (n self))
  else if decide (name = "_names"%string) then Ok (VList (VStr <$> _names self))
  else if decide (name = "_attr_dict"%string) then Ok (VDict (_attr_dict self))
  else if decide (name = "_n_walkers"%string) then Ok (VInt (_n_walkers self))
  else match attrs self !! name with
       | Some a => Ok (VArray a)
       | None =>
           if bool_decide (name ∈ class_members) then Ok (VMember name)
           else Raise AttributeError
       end.

(** [hasattr(self, name)] *)
Definition hasattr (self : t) (name : string) : bool :=
  match getattr self name with
  | Raise AttributeError => false
  | _ => true
  end.

(** [params_to_arrays]: to be overridden.  [__init__] calls it on the
    instance before any attribute is set. *)
Definition params_to_arrays {Self Schema : Type} (self : Self) (param_dict : Schema)
    (n_walkers : Z) : result (list (string * np.ndarray T)) * Self :=
  (Raise NotImplementedError, self).

(** [__init__(self, batch_size, state_dict=None, **kwargs)] *)
Definition __init__ {Schema : Type} (batch_size : Z) (state_dict : option Schema)
    (kwargs : list (string * np.ndarray T)) : result t :=
  attr_dict ← match state_dict with
              | Some sd =>
                  (params_to_arrays (∅ : gmap string (np.ndarray T)) sd batch_size).1
              | None => Ok kwargs
              end;
  d ← for_each (λ d kv, setattr d kv.1 kv.2) attr_dict ∅;
  Ok {| _names := attr_dict.*1; _attr_dict := attr_dict; attrs := d;
        _n_walkers := batch_size |}.

(** [cls(batch_size=..., **kwargs)] *)
Definition new (batch_size : Z) (kwargs : list (string * np.ndarray T)) : result t :=
  __init__ (Schema := Empty_set) batch_size None kwargs.

(** [__getitem__].  The handler only catches [TypeError]. *)
Definition __getitem__ (self : t) (item : index) : result value :=
  match item with
  | IStr s =>
      match getattr self s with
      | Raise (TypeError _) =>
          Raise (TypeError ("Tried to get an attribute with key " +:+ s))
      | r => r
      end
  | IList l => VList <$> traverse (getattr self) l
  | IOther repr =>
      Raise (TypeError ("item must be an instance of str or list, got "
                        +:+ repr +:+ " instead"))
  end.

(** [__setitem__]: [value] is an array, or a flat list or tuple that
    [np.array] converts. *)
Definition __setitem__ (self : t) (key : string)
    (val : np.ndarray T + list T) : result unit * t :=
  let a := match val with inl a => a | inr l => np.of_list l end in
  match setattr (attrs self) key a with
  | Ok d => (Ok (), {| _names := _names self; _attr_dict := _attr_dict self;
                       attrs := d; _n_walkers := _n_walkers self |})
  | Raise e => (Raise e, self)
  end.

(** [keys], [vals], [items]: a new generator over [self._names].  A call
    [self.keys()] inside the class is this function on a container that is
    [wf]; a container that binds an array under the name of a method
    shadows the method, and the code then fails where it calls it. *)
Definition keys (self : t) : generator := GenKeys (_names self).
Definition vals (self : t) : generator := GenVals (_names self).
Definition items (self : t) : generator := GenItems (_names self).

(** [v[i]] for a value [v]; only arrays support it. *)
Definition subscript (v : value) (i : nat) : result (np.ndarray T) :=
  match v with
  | VArray a => np.getitem a i
  | _ => Raise (TypeError "object is not subscriptable")
  end.

(** [[v[i] for v in self.vals()]]: the comprehension consumes a new [vals]
    generator, so it reads [self[name]] and indexes it, name by name. *)
Definition walker_row (self : t) (i : nat) : result (list (np.ndarray T)) :=
  traverse (λ name, v ← __getitem__ self (IStr name); subscript v i) (_names self).

(** The loop of [itervals] and [iteritems], suspended at index [i] of
    [range(stop)]; every turn yields the row of walker [i]. *)
Definition loop_next (self : t) (i stop : nat)
    : result (option (list (np.ndarray T))) * loop_pc :=
  if decide (i < stop) then
    match walker_row self i with
    | Ok row => (Ok (Some row), PcLoop (S i) stop)
    | Raise e => (Raise e, PcDone)
    end
  else (Ok None, PcDone).

(** [itervals]: a generator function, so [return self.vals()] ends the
    iteration (the returned generator only travels in [StopIteration]). *)
Definition itervals_next (self : t) (pc : loop_pc)
    : result (option (list (np.ndarray T))) * loop_pc :=
  match pc with
  | PcStart =>
      if decide (n self ≤ 1)%Z then (Ok None, PcDone)
      else loop_next self 0 (Z.to_nat (n self))
  | PcLoop i stop => loop_next self i stop
  | PcDone => (Ok None, PcDone)
  end.

(** [iteritems]: the same with the test [self.n < 1]; it yields the names
    with every row. *)
Definition iteritems_next (self : t) (pc : loop_pc)
    : result (option (list string * list (np.ndarray T))) * loop_pc :=
  let with_names r :=
    match r with
    | (Ok (Some row), pc') => (Ok (Some (_names self, row)), pc')
    | (Ok None, pc') => (Ok None, pc')
    | (Raise e, pc') => (Raise e, pc')
    end in
  match pc with
  | PcStart =>
      if decide (n self < 1)%Z then (Ok None, PcDone)
      else with_names (loop_next self 0 (Z.to_nat (n self)))
  | PcLoop i stop => with_names (loop_next self i stop)
  | PcDone => (Ok None, PcDone)
  end.

(** [split_states]: one container of batch size one for every pair that
    [iteritems] yields. *)
Definition split_states_next (self : t) (pc : loop_pc)
    : result (option t) * loop_pc :=
  match iteritems_next self pc with
  | (Ok (Some (k, v)), pc') =>
      match new 1 (dict (zip k v)) with
      | Ok s => (Ok (Some s), pc')
      | Raise e => (Raise e, PcDone)
      end
  | (Ok None, pc') => (Ok None, pc')
  | (Raise e, pc') => (Raise e, pc')
  end.

Definition itervals (self : t) : generator := GenItervals PcStart.
Definition iteritems (self : t) : generator := GenIteritems PcStart.
Definition split_states (self : t) : generator := GenSplitStates PcStart.

(** [next(g)] for a generator [g] of the object [self], whose state is read
    now: [Ok (Some v)] yields [v], [Ok None] is [StopIteration].  A
    generator that raised is finished. *)
Definition next (self : t) (g : generator) : result (option value) * generator :=
  match g with
  | GenKeys [] => (Ok None, GenKeys [])
  | GenKeys (name :: it) => (Ok (Some (VStr name)), GenKeys it)
  | GenVals [] => (Ok None, GenVals [])
  | GenVals (name :: it) =>
      match __getitem__ self (IStr name) with
      | Ok v => (Ok (Some v), GenVals it)
      | Raise e => (Raise e, GenVals [])
      end
  | GenItems [] => (Ok None, GenItems [])
  | GenItems (name :: it) =>
      match __getitem__ self (IStr name) with
      | Ok v => (Ok (Some (VTuple [VStr name; v])), GenItems it)
      | Raise e => (Raise e, GenItems [])
      end
  | GenItervals pc =>
      match itervals_next self pc with
      | (Ok (Some row), pc') => (Ok (Some (VTuple (VArray <$> row))), GenItervals pc')
      | (Ok None, pc') => (Ok None, GenItervals pc')
      | (Raise e, pc') => (Raise e, GenItervals pc')
      end
  | GenIteritems pc =>
      match iteritems_next self pc with
      | (Ok (Some (k, v)), pc') =>
          (Ok (Some (VTuple [VTuple (VStr <$> k); VTuple (VArray <$> v)])),
           GenIteritems pc')
      | (Ok None, pc') => (Ok None, GenIteritems pc')
      | (Raise e, pc') => (Raise e, GenIteritems pc')
      end
  | GenSplitStates pc =>
      match split_states_next self pc with
      | (Ok (Some s), pc') => (Ok (Some (VStates s)), GenSplitStates pc')
      | (Ok None, pc') => (Ok None, GenSplitStates pc')
      | (Raise e, pc') => (Raise e, GenSplitStates pc')
      end
  end.

(** An upper bound on the values [g] still yields while [self] is not
    changed. *)
Definition pending (self : t) (g : generator) : nat :=
  let of_pc pc :=
    match pc with
    | PcStart => Z.to_nat (n self)
    | PcLoop i stop => stop - i
    | PcDone => 0
    end in
  match g with
  | GenKeys it | GenVals it | GenItems it => length it
  | GenItervals pc | GenIteritems pc | GenSplitStates pc => of_pc pc
  end.

(** [list(g)] with [fuel] calls of [next] at most: the values, and the
    generator as it is left. *)
Fixpoint collect (fuel : nat) (self : t) (g : generator)
    : result (list value) * generator :=
  match fuel with
  | 0 => (Ok [], g)
  | S fuel' =>
      match next self g with
      | (Ok None, g') => (Ok [], g')
      | (Ok (Some v), g') =>
          match collect fuel' self g' with
          | (Ok vs, g'') => (Ok (v :: vs), g'')
          | (Raise e, g'') => (Raise e, g'')
          end
      | (Raise e, g') => (Raise e, g')
      end
  end.

(** [list(g)]: [pending] calls yield, one more call sees [StopIteration]. *)
Definition list_ (self : t) (g : generator) : result (list value) * generator :=
  collect (S (pending self g)) self g.

(** [key in g] for a string [key]: stops at the first equal value. *)
Fixpoint contains (fuel : nat) (self : t) (key : string) (g : generator)
    : result bool :=
  match fuel with
  | 0 => Ok false
  | S fuel' =>
      match next self g with
      | (Ok None, _) => Ok false
      | (Ok (Some (VStr s)), g') =>
          if decide (key = s) then Ok true else contains fuel' self key g'
      | (Ok (Some _), g') => contains fuel' self key g'
      | (Raise e, _) => Raise e
      end
  end.

Definition in_ (self : t) (key : string) (g : generator) : result bool :=
  contains (S (pending self g)) self key g.

(** [get(self, key, default=None)], on a container that is [wf] (see
    [keys]). *)
Definition get (self : t) (key : string) (default : value) : result value :=
  found ← in_ self key (keys self);
  if negb found then Ok default else __getitem__ self (IStr key).

(** [states[0]] *)
Definition first_state (states : list t) : result t :=
  match states with
  | [] => Raise IndexError
  | s0 :: _ => Ok s0
  end.

(** One turn of the loop of [concat_states], the array for [name]: the
    shape is read from the first state, then the arrays of all states are
    concatenated and reshaped.  [np.concatenate] takes what is not an
    array for a zero-dimensional one. *)
Definition concat_attribute (n_walkers : Z) (states : list t) (name : string)
    : result (np.ndarray T) :=
  s0 ← first_state states;
  v0 ← __getitem__ s0 (IStr name);
  shape0 ← match v0 with
           | VArray a => Ok (np.shape a)
           | _ => Raise AttributeError
           end;
  let shape := n_walkers :: (Z.of_nat <$> shape0) in
  arrays ← traverse (λ s, v ← __getitem__ s (IStr name);
                          match v with
                          | VArray a => Ok a
                          | _ => Raise ValueError
                          end) states;
  joined ← np.concatenate arrays;
  np.reshape joined shape.

(** [concat_states(cls, states)] *)
Definition concat_states (states : list t) : result t :=
  let n_walkers := sum (n <$> states) in
  s0 ← first_state states;
  names ← (λ vs, omap (λ v, match v with VStr s => Some s | _ => None end) vs)
            <$> (list_ s0 (keys s0)).1;
  state_dict ← for_each (λ state_dict name,
      a ← concat_attribute n_walkers states name;
      Ok (dict_set state_dict name a)) names [];
  new n_walkers state_dict.

(** The arrays that the containers of [states] bind to [name], in order. *)
Definition column (states : list t) (name : string) : list (np.ndarray T) :=
  omap (λ s, attrs s !! name) states.

(** A generator that has stopped: [next] can only give [StopIteration]. *)
Definition finished (g : generator) : bool :=
  match g with
  | GenKeys [] | GenVals [] | GenItems [] => true
  | GenItervals PcDone | GenIteritems PcDone | GenSplitStates PcDone => true
  | _ => false
  end.

(** The tuple of rows in a pair that [iteritems] yields. *)
Definition item_values (v : value) : value :=
  match v with
  | VTuple [_; row] => row
  | _ => v
  end.

(** [clone] and [update]: to be overridden. *)
Definition clone (self : t) (will_clone : list bool) (compas_ix : list nat)
    : result unit * t :=
  (Raise NotImplementedError, self).

Definition update {Kwargs : Type} (self : t) (other : option t) (kwargs : Kwargs)
    : result unit * t :=
  (Raise NotImplementedError, self).

Definition get_params_dict {Schema : Type} (self : t) : result Schema * t :=
  (Raise NotImplementedError, self).

(** The containers that the methods above are written for: the names are
    distinct and usable as attribute names, every name is bound to an
    array, and nothing else was bound under a reserved name. *)
Record wf (self : t) : Prop := {
  wf_names_ok : Forall attr_name_ok (_names self);
  wf_names_nodup : NoDup (_names self);
  wf_names_bound : ∀ name, name ∈ _names self → is_Some (attrs self !! name);
  wf_attrs_ok : ∀ name, is_Some (attrs self !! name) → attr_name_ok name
}.

(** A container of [N] walkers in the sense of the data model: it reports
    [N] walkers and every array has [N] as its leading dimension. *)
Definition batched (N : nat) (self : t) : Prop :=
  n self = Z.of_nat N ∧
  ∀ name a, name ∈ _names self → attrs self !! name = Some a →
    np.wf a ∧ head (np.shape a) = Some N.

(** A container of one walker whose attributes have the shapes that
    [schema] gives to [names]. *)
Definition single_walker (names : list string) (schema : string → list nat)
    (self : t) : Prop :=
  wf self ∧ n self = 1%Z ∧
  ∀ name, name ∈ names →
    ∃ a, attrs self !! name = Some a ∧ np.shape a = schema name ∧ np.wf a.

End BaseStates.

Arguments t T : clear implicits.
Arguments generator : clear implicits.
Arguments value T : clear implicits.

End BaseStates.

(** ** class States: the clone operation *)

Module States.

Section States.
Context {T : Type}.

(** [a[i] = row], for [i] within the first axis of [a]. *)
Definition set_row (a : np.ndarray T) (i : nat) (row : np.ndarray T) : np.ndarray T :=
  let k := np.size_of (tail (np.shape a)) in
  np.array (np.shape a)
           (take (i * k) (np.data a) ++ np.data row ++ drop (S i * k) (np.data a)).

(** Modelled from the spec: [clone] on one attribute.  Every walker [i]
    that clones is overwritten with the row of its companion, read from
    the array as it was before the call. *)
Definition clone_array (will_clone : list bool) (compas_ix : list nat)
    (a : np.ndarray T) : result (np.ndarray T) :=
  let snapshot := a in
  for_each (λ acc i,
      match will_clone !! i, compas_ix !! i with
      | Some true, Some c => row ← np.getitem snapshot c; Ok (set_row acc i row)
      | Some true, None => Raise IndexError
      | _, _ => Ok acc
      end)
    (seq 0 (length will_clone)) a.

(** Modelled from the spec: the walker whose attributes walker [i] holds
    after [clone], its companion if it clones and itself otherwise. *)
Definition source (will_clone : list bool) (compas_ix : list nat) (i : nat) : nat :=
  match will_clone !! i, compas_ix !! i with
  | Some true, Some c => c
  | _, _ => i
  end.

(** Modelled from the spec: the override of [BaseStates.clone] in class
    [States] (fragile/core/states.py), which is not among the sources; the
    base class only declares the method.  Following the specification of
    [clone(willClone, companion)]: both arrays have the length of the batch
    or the call fails with [ShapeMismatch]; every attribute is cloned
    against the snapshot taken before the call; a failure leaves the
    container as it was. *)
Definition clone (self : BaseStates.t T) (will_clone : list bool)
    (compas_ix : list nat) : result unit * BaseStates.t T :=
  if decide (Z.of_nat (length will_clone) = BaseStates.n self
             ∧ length compas_ix = length will_clone) then
    match
      for_each (λ d name,
          match BaseStates.attrs self !! name with
          | Some a => a' ← clone_array will_clone compas_ix a; Ok (<[name := a']> d)
          | None => Raise AttributeError
          end)
        (BaseStates._names self) (BaseStates.attrs self)
    with
    | Ok d =>
        (Ok (), {| BaseStates._names := BaseStates._names self;
                   BaseStates._attr_dict := BaseStates._attr_dict self;
                   BaseStates.attrs := d;
                   BaseStates._n_walkers := BaseStates._n_walkers self |})
    | Raise e => (Raise e, self)
    end
  else (Raise ShapeMismatch, self).

End States.

End States.

(** ** class BaseEnvironment *)

Module BaseEnvironment.

Section BaseEnvironment.
Context {Self Obj : Type}.

Definition step (self : Self) (actions env_states : Obj) (args : list Obj)
    (kwargs : list (string * Obj)) : result Obj * Self :=
  (Raise NotImplementedError, self).

Definition reset (self : Self) (batch_size : Z) (env_states : option Obj)
    : result Obj * Self :=
  (Raise NotImplementedError, self).

Definition get_params_dict (self : Self) : result Obj * Self :=
  (Raise NotImplementedError, self).

End BaseEnvironment.

End BaseEnvironment.

(** ** class BaseModel *)

Module BaseModel.

Section BaseModel.
Context {Self Obj : Type}.

Definition get_params_dict (self : Self) : result Obj * Self :=
  (Raise NotImplementedError, self).

Definition reset (self : Self) (batch_size : Z) : result Obj * Self :=
  (Raise NotImplementedError, self).

Definition predict (self : Self) (model_states env_states walkers_states : option Obj)
    : result (Obj * Obj) * Self :=
  (Raise NotImplementedError, self).

Definition calculate_dt (self : Self) (model_states env_states walkers_states : option Obj)
    : result (Obj * Obj) * Self :=
  (Raise NotImplementedError, self).

End BaseModel.

End BaseModel.

(** ** class BaseWalkers *)

Module BaseWalkers.

Section BaseWalkers.
Context {Obj : Type}.

Record t : Type := instance {
  model_state_params : Obj;
  env_state_params : Obj;
  n_walkers : Z;
  id_walkers : option Obj;
  death_cond : option Obj;
  _accumulate_rewards : bool
}.

Definition __init__ (n_walkers : Z) (env_state_params model_state_params : Obj)
    (accumulate_rewards : bool) : t :=
  {| model_state_params := model_state_params;
     env_state_params := env_state_params;
     n_walkers := n_walkers;
     id_walkers := None;
     death_cond := None;
     _accumulate_rewards := accumulate_rewards |}.

Definition n (self : t) : Z := n_walkers self.

(** The properties [env_states], [model_states] and [states]. *)
Definition env_states (self : t) : result Obj * t := (Raise NotImplementedError, self).
Definition model_states (self : t) : result Obj * t := (Raise NotImplementedError, self).
Definition states (self : t) : result Obj * t := (Raise NotImplementedError, self).

Definition get_env_states (self : t) : result Obj * t := env_states self.
Definition get_model_states (self : t) : result Obj * t := model_states self.

Definition update_states (self : t) (env_states model_states : option Obj)
    (kwargs : list (string * Obj)) : result unit * t :=
  (Raise NotImplementedError, self).

Definition reset (self : t) (args : list Obj) (kwargs : list (string * Obj))
    : result unit * t :=
  (Raise NotImplementedError, self).

Definition calculate_distances (self : t) : result unit * t :=
  (Raise NotImplementedError, self).

Definition calculate_virtual_reward (self : t) : result unit * t :=
  (Raise NotImplementedError, self).

Definition calculate_end_condition (self : t) : result bool * t :=
  (Raise NotImplementedError, self).

Definition update_clone_probs (self : t) (clone_ix will_clone : Obj) : result unit * t :=
  (Raise NotImplementedError, self).

Definition clone_walkers (self : t) : result unit * t :=
  (Raise NotImplementedError, self).

Definition get_alive_compas (self : t) : result Obj * t :=
  (Raise NotImplementedError, self).

Definition balance (self : t) : result unit * t :=
  (Raise NotImplementedError, self).

End BaseWalkers.

Arguments t Obj : clear implicits.

End BaseWalkers.

(** ** class BaseSwarm *)

Module BaseSwarm.

Section BaseSwarm.
Context {Obj : Type}.

Record t : Type := instance {
  _walkers : option Obj;
  _model : option Obj;
  _env : option Obj;
  tree : option Obj;
  epoch : Z
}.

(** A call of [self._init_swarm] with positional and keyword arguments, as the method receives
    it. *)
Definition method : Type := t → list Obj → list (string * Obj) → result unit * t.

(** The parameters of [_init_swarm] after [self]; the first four have no
    default. *)
Definition init_swarm_params : list string :=
  [ "env_callable"; "model_callable"; "walkers_callable"; "n_walkers";
    "reward_scale"; "dist_scale" ]%string.

Definition init_swarm_required : list string := take 4 init_swarm_params.

(** [_init_swarm] of the base class.  Positional arguments fill the
    parameters in order, a keyword that names a parameter already filled
    is a [TypeError], and so is a parameter without a default that is left
    unfilled; the body raises. *)
Definition _init_swarm : method := λ self args keywords,
  let filled := take (length args) init_swarm_params in
  if bool_decide (Exists (λ kv, kv.1 ∈ filled) keywords)
  then (Raise (TypeError "_init_swarm() got multiple values for argument"), self)
  else if bool_decide (Forall (λ p, p ∈ filled ∨ p ∈ keywords.*1) init_swarm_required)
  then (Raise NotImplementedError, self)
  else (Raise (TypeError "_init_swarm() missing required positional arguments"), self).

(** [__init__] of a class whose [_init_swarm] is [init_swarm].  The call
    passes six keywords, then the extra positional and keyword arguments; a key of [kwargs]
    that repeats one of the six is a [TypeError] of the call itself. *)
Definition __init__ (init_swarm : method) (env model walkers n_walkers : Obj)
    (reward_scale dist_scale : Obj) (args : list Obj) (kwargs : list (string * Obj))
    : result unit * t :=
  let self := {| _walkers := None; _model := None; _env := None; tree := None;
                 epoch := 0 |} in
  let keywords := [ ("env_callable", env); ("model_callable", model);
                    ("walkers_callable", walkers); ("n_walkers", n_walkers);
                    ("reward_scale", reward_scale); ("dist_scale", dist_scale) ]%string in
  if bool_decide (Exists (λ kv, kv.1 ∈ keywords.*1) kwargs)
  then (Raise (TypeError "got multiple values for keyword argument"), self)
  else init_swarm self args (keywords ++ kwargs).

Definition env (self : t) : option Obj := _env self.
Definition model (self : t) : option Obj := _model self.
Definition walkers (self : t) : option Obj := _walkers self.

Definition reset (self : t) (model_states env_states walkers_states : option Obj)
    : result unit * t :=
  (Raise NotImplementedError, self).

Definition run_swarm (self : t) (model_states env_states walkers_states : option Obj)
    : result unit * t :=
  (Raise NotImplementedError, self).

Definition step_walkers (self : t) : result unit * t :=
  (Raise NotImplementedError, self).

End BaseSwarm.

Arguments t Obj : clear implicits.
Arguments method Obj : clear implicits.

End BaseSwarm.

(** ** Example containers *)

Module Examples.

Local Open Scope string_scope.

(** One walker with a two-component observation and a reward. *)
Definition one_walker (x y r : Z) : BaseStates.t Z :=
  {| BaseStates._names := ["observs"; "rewards"];
     BaseStates._attr_dict :=
       [("observs", np.array [1; 2] [x; y]); ("rewards", np.array [1] [r])];
     BaseStates.attrs :=
       <["rewards" := np.array [1] [r]]> (<["observs" := np.array [1; 2] [x; y]]> ∅);
     BaseStates._n_walkers := 1 |}.

(** Two walkers with a scalar reward each. *)
Definition two_walkers : BaseStates.t Z :=
  {| BaseStates._names := ["rewards"];
     BaseStates._attr_dict := [("rewards", np.array [2] [10; 20]%Z)];
     BaseStates.attrs := <["rewards" := np.array [2] [10; 20]%Z]> ∅;
     BaseStates._n_walkers := 2 |}.

(** Three walkers with a two-component observation and a reward. *)
Definition three_walkers : BaseStates.t Z :=
  {| BaseStates._names := ["observs"; "rewards"];
     BaseStates._attr_dict :=
       [("observs", np.array [3; 2] [1; 2; 3; 4; 5; 6]%Z);
        ("rewards", np.array [3] [7; 8; 9]%Z)];
     BaseStates.attrs :=
       <["rewards" := np.array [3] [7; 8; 9]%Z]>
         (<["observs" := np.array [3; 2] [1; 2; 3; 4; 5; 6]%Z]> ∅);
     BaseStates._n_walkers := 3 |}.

(** Two walkers with a two-component observation and a one-component
    action: every array has two dimensions. *)
Definition grid_walkers : BaseStates.t Z :=
  {| BaseStates._names := ["observs"; "actions"];
     BaseStates._attr_dict :=
       [("observs", np.array [2; 2] [1; 2; 3; 4]%Z);
        ("actions", np.array [2; 1] [5; 6]%Z)];
     BaseStates.attrs :=
       <["actions" := np.array [2; 1] [5; 6]%Z]>
         (<["observs" := np.array [2; 2] [1; 2; 3; 4]%Z]> ∅);
     BaseStates._n_walkers := 2 |}.

(** A container that reports three walkers and holds two rewards. *)
Definition overdeclared : BaseStates.t Z :=
  {| BaseStates._names := ["rewards"];
     BaseStates._attr_dict := [("rewards", np.array [2] [10; 20]%Z)];
     BaseStates.attrs := <["rewards" := np.array [2] [10; 20]%Z]> ∅;
     BaseStates._n_walkers := 3 |}.

(** A container that reports minus one walker and holds one reward. *)
Definition negative_walkers (r : Z) : BaseStates.t Z :=
  {| BaseStates._names := ["rewards"];
     BaseStates._attr_dict := [("rewards", np.array [1] [r])];
     BaseStates.attrs := <["rewards" := np.array [1] [r]]> ∅;
     BaseStates._n_walkers := -1 |}.

(** The shapes of the attributes of [one_walker]. *)
Definition one_walker_names : list string := ["observs"; "rewards"].

Definition one_walker_schema (name : string) : list nat :=
  if decide (name = "observs") then [1; 2] else [1].

End Examples.

(** * Properties *)

(** ** The error monad *)

Section monad_lemmas.
Context {A B : Type}.

Lemma traverse_ok (f : A → result B) (g : A → B) (l : list A) :
  (∀ x, x ∈ l → f x = Ok (g x)) → traverse f l = Ok (g <$> l).
Proof.
  induction l as [|x l IH]; intros Hf; [done|].
  cbn. rewrite (Hf x) by left. cbn.
  rewrite IH; [done|]. intros y Hy. apply Hf. by right.
Qed.

Lemma for_each_ok (f : B → A → result B) (g : B → A → B) (l : list A) (acc : B) :
  (∀ b x, x ∈ l → f b x = Ok (g b x)) → for_each f l acc = Ok (foldl g acc l).
Proof.
  revert acc. induction l as [|x l IH]; intros acc Hf; [done|].
  cbn. rewrite (Hf acc x) by left. cbn.
  apply IH. intros b y Hy. apply Hf. by right.
Qed.

End monad_lemmas.

Lemma dict_set_fresh {V} (d : list (string * V)) k v :
  k ∉ d.*1 → dict_set d k v = d ++ [(k, v)].
Proof.
  induction d as [|[k' v'] d IH]; intros Hk; [done|].
  cbn in *. apply not_elem_of_cons in Hk as [Hne Hk].
  destruct (decide (k = k')) as [->|_]; [done|]. by rewrite IH.
Qed.

Lemma dict_nodup {V} (pairs : list (string * V)) :
  NoDup pairs.*1 → dict pairs = pairs.
Proof.
  unfold dict. intros Hnd.
  enough (∀ acc, (∀ k, k ∈ acc.*1 → k ∉ pairs.*1) →
            foldl (λ d kv, dict_set d kv.1 kv.2) acc pairs = acc ++ pairs) as H.
  { apply (H []). intros k Hk. by apply elem_of_nil in Hk. }
  induction pairs as [|[k v] pairs IH]; intros acc Hacc.
  - by rewrite app_nil_r.
  - cbn in *. apply NoDup_cons in Hnd as [Hk Hnd].
    rewrite dict_set_fresh.
    + rewrite IH; [by rewrite <- app_assoc|done|].
      intros k' Hk'. rewrite fmap_app in Hk'. cbn in Hk'.
      apply elem_of_app in Hk' as [Hk'|Hk'].
      * specialize (Hacc k' Hk'). by apply not_elem_of_cons in Hacc as [_ ?].
      * apply list_elem_of_singleton in Hk' as ->. done.
    + intros Hin. specialize (Hacc k Hin). apply Hacc. by left.
Qed.

(** ** Attribute access *)

Section attribute_access.
Context {T : Type}.
Implicit Types (self : BaseStates.t T) (name key : string).

Lemma attr_name_ok_inv name :
  BaseStates.attr_name_ok name →
  name ≠ "n"%string ∧ name ≠ "_names"%string ∧ name ≠ "_attr_dict"%string ∧
  name ≠ "_n_walkers"%string ∧ name ∉ BaseStates.class_members.
Proof.
  unfold BaseStates.attr_name_ok, BaseStates.reserved. intros H.
  apply not_elem_of_app in H as [H1 H2].
  repeat (apply not_elem_of_cons in H1 as [? H1]). done.
Qed.

Lemma getattr_array self name :
  BaseStates.attr_name_ok name →
  BaseStates.getattr self name =
    match BaseStates.attrs self !! name with
    | Some a => Ok (BaseStates.VArray a)
    | None => Raise AttributeError
    end.
Proof.
  intros (? & ? & ? & ? & Hc)%attr_name_ok_inv. unfold BaseStates.getattr.
  repeat (destruct (decide _); [done|]).
  destruct (_ !! name); [done|]. by rewrite bool_decide_eq_false_2.
Qed.

(** [getattr] never raises anything but [AttributeError]. *)
Lemma getattr_raises self name e :
  BaseStates.getattr self name = Raise e → e = AttributeError.
Proof.
  unfold BaseStates.getattr.
  repeat (destruct (decide _); [done|]).
  destruct (_ !! name); [done|]. destruct (bool_decide _); congruence.
Qed.

Lemma getitem_str self name :
  BaseStates.__getitem__ self (BaseStates.IStr name) = BaseStates.getattr self name.
Proof.
  cbn. destruct (BaseStates.getattr self name) as [v|e] eqn:E; [done|].
  by apply getattr_raises in E as ->.
Qed.

Lemma getitem_array self name a :
  BaseStates.attr_name_ok name → BaseStates.attrs self !! name = Some a →
  BaseStates.__getitem__ self (BaseStates.IStr name) = Ok (BaseStates.VArray a).
Proof. intros Hok Ha. by rewrite getitem_str, getattr_array, Ha. Qed.

Lemma wf_getitem self name :
  BaseStates.wf self → name ∈ BaseStates._names self →
  ∃ a, BaseStates.attrs self !! name = Some a ∧
       BaseStates.__getitem__ self (BaseStates.IStr name) = Ok (BaseStates.VArray a).
Proof.
  intros Hwf Hin. destruct (BaseStates.wf_names_bound _ Hwf name Hin) as [a Ha].
  exists a. split; [done|]. apply getitem_array; [|done].
  eapply Forall_forall; [apply (BaseStates.wf_names_ok _ Hwf)|done].
Qed.

End attribute_access.

(** ** Generators run out *)

Section generators.
Context {T : Type}.
Implicit Types (self : BaseStates.t T) (g : BaseStates.generator).
Local Arguments BaseStates.__getitem__ : simpl never.
Local Arguments BaseStates.new : simpl never.
Local Arguments BaseStates.loop_next : simpl never.

Lemma loop_next_pending self i stop (row : list (np.ndarray T)) pc' :
  BaseStates.loop_next self i stop = (Ok (Some row), pc') →
  pc' = BaseStates.PcLoop (S i) stop ∧ i < stop.
Proof.
  unfold BaseStates.loop_next. destruct (decide (i < stop)); [|done].
  destruct (BaseStates.walker_row self i); [|done]. by intros [= _ <-].
Qed.

Lemma itervals_next_pending self pc (row : list (np.ndarray T)) pc' :
  BaseStates.itervals_next self pc = (Ok (Some row), pc') →
  BaseStates.pending self (BaseStates.GenItervals pc')
  < BaseStates.pending self (BaseStates.GenItervals pc).
Proof.
  destruct pc as [|i stop|]; cbn; [|..|done].
  - destruct (decide _); [done|].
    intros [-> ?]%loop_next_pending. cbn. lia.
  - intros [-> ?]%loop_next_pending. cbn. lia.
Qed.

Lemma iteritems_next_pending self pc kv pc' :
  BaseStates.iteritems_next self pc = (Ok (Some kv), pc') →
  BaseStates.pending self (BaseStates.GenIteritems pc')
  < BaseStates.pending self (BaseStates.GenIteritems pc).
Proof.
  destruct pc as [|i stop|]; cbn; [|..|done].
  - destruct (decide _); [done|].
    destruct (BaseStates.loop_next _ _ _) as [[[row|]|] pc''] eqn:E; [|done..].
    apply loop_next_pending in E as [-> ?]. intros [= _ <-]. cbn. lia.
  - destruct (BaseStates.loop_next _ _ _) as [[[row|]|] pc''] eqn:E; [|done..].
    apply loop_next_pending in E as [-> ?]. intros [= _ <-]. cbn. lia.
Qed.

(** Every value a generator yields brings it closer to its end. *)
Lemma next_pending self g v g' :
  BaseStates.next self g = (Ok (Some v), g') →
  BaseStates.pending self g' < BaseStates.pending self g.
Proof.
  destruct g as [it|it|it|pc|pc|pc]; cbn.
  - destruct it; [done|]. intros [= _ <-]. cbn. lia.
  - destruct it; [done|]. destruct (BaseStates.__getitem__ self _); [|done].
    intros [= _ <-]. cbn. lia.
  - destruct it; [done|]. destruct (BaseStates.__getitem__ self _); [|done].
    intros [= _ <-]. cbn. lia.
  - destruct (BaseStates.itervals_next self pc) as [[[row|]|] pc''] eqn:E; [|done..].
    intros [= _ <-]. by eapply itervals_next_pending.
  - destruct (BaseStates.iteritems_next self pc) as [[[[k v']|]|] pc''] eqn:E; [|done..].
    intros [= _ <-]. by eapply iteritems_next_pending.
  - unfold BaseStates.split_states_next.
    destruct (BaseStates.iteritems_next self pc) as [[[[k v']|]|] pc''] eqn:E; [|done..].
    destruct (BaseStates.new 1 _); [|done].
    intros [= _ <-]. apply iteritems_next_pending in E. exact E.
Qed.

(** A generator with nothing pending does not yield. *)
Lemma next_pending_0 self g :
  BaseStates.pending self g = 0 →
  ∀ v g', BaseStates.next self g ≠ (Ok (Some v), g').
Proof.
  intros H0 v g' Hn. apply next_pending in Hn. lia.
Qed.

(** [list_] gives [collect] all the fuel it can use: more changes nothing. *)
Lemma collect_enough self g fuel :
  BaseStates.pending self g < fuel →
  BaseStates.collect fuel self g = BaseStates.list_ self g.
Proof.
  unfold BaseStates.list_.
  remember (BaseStates.pending self g) as p eqn:Hp.
  revert g fuel Hp. induction (lt_wf p) as [p _ IH]. intros g fuel -> Hlt.
  destruct fuel as [|fuel]; [lia|]. cbn.
  destruct (BaseStates.next self g) as [[[v|]|e] g'] eqn:E; [|done..].
  pose proof (next_pending _ _ _ _ E) as Hdec.
  rewrite (IH _ Hdec g' fuel eq_refl) by lia.
  rewrite (IH _ Hdec g' (BaseStates.pending self g) eq_refl) by lia.
  done.
Qed.

Lemma loop_next_stops self i stop r pc' :
  BaseStates.loop_next self i stop = (r, pc') →
  (∀ row : list (np.ndarray T), r ≠ Ok (Some row)) → pc' = BaseStates.PcDone.
Proof.
  unfold BaseStates.loop_next. destruct (decide (i < stop)).
  - destruct (BaseStates.walker_row self i) as [row|e]; intros [= <- <-] Hr; [|done].
    by destruct (Hr row).
  - by intros [= <- <-].
Qed.

(** A generator that stopped or raised has nothing pending. *)
Lemma next_stops self g r g' :
  BaseStates.next self g = (r, g') → (∀ v, r ≠ Ok (Some v)) →
  BaseStates.pending self g' = 0.
Proof.
  destruct g as [it|it|it|pc|pc|pc]; cbn.
  - destruct it; intros [= <- <-] Hr; [done|]. by destruct (Hr (BaseStates.VStr s)).
  - destruct it; [by intros [= <- <-]|].
    destruct (BaseStates.__getitem__ self _) as [v|e]; intros [= <- <-] Hr; [|done].
    by destruct (Hr v).
  - destruct it; [by intros [= <- <-]|].
    destruct (BaseStates.__getitem__ self _) as [v|e]; intros [= <- <-] Hr; [|done].
    by destruct (Hr (BaseStates.VTuple [BaseStates.VStr s; v])).
  - destruct (BaseStates.itervals_next self pc) as [r' pc''] eqn:E.
    assert (r ≠ Ok None ∨ r = Ok None) as _ by (destruct r as [[]|]; auto).
    intros Hn Hr.
    assert (pc'' = BaseStates.PcDone) as ->.
    { destruct pc as [|i stop|]; cbn in E.
      - destruct (decide _); [by injection E|].
        eapply loop_next_stops; [done|]. intros row ->. injection Hn as <- _.
        by destruct (Hr (BaseStates.VTuple (BaseStates.VArray <$> row))).
      - eapply loop_next_stops; [done|]. intros row ->. injection Hn as <- _.
        by destruct (Hr (BaseStates.VTuple (BaseStates.VArray <$> row))).
      - by injection E. }
    destruct r' as [[row|]|e]; by injection Hn as <- <-.
  - destruct (BaseStates.iteritems_next self pc) as [r' pc''] eqn:E.
    intros Hn Hr.
    assert (pc'' = BaseStates.PcDone ∨ ∃ kv, r' = Ok (Some kv)) as [->|[[k v] ->]].
    { destruct pc as [|i stop|]; cbn in E.
      - destruct (decide _); [left; by injection E|].
        destruct (BaseStates.loop_next self 0 _) as [[[row|]|e] pc3] eqn:E3;
          injection E as <- <-; [right; eauto|left..];
          (eapply loop_next_stops; [done|done]).
      - destruct (BaseStates.loop_next self i _) as [[[row|]|e] pc3] eqn:E3;
          injection E as <- <-; [right; eauto|left..];
          (eapply loop_next_stops; [done|done]).
      - left. by injection E. }
    + destruct r' as [[[k v]|]|e]; by injection Hn as <- <-.
    + injection Hn as <- <-. by edestruct Hr.
  - unfold BaseStates.split_states_next.
    destruct (BaseStates.iteritems_next self pc) as [r' pc''] eqn:E.
    intros Hn Hr.
    assert (pc'' = BaseStates.PcDone ∨ ∃ kv, r' = Ok (Some kv)) as [->|[[k v] ->]].
    { destruct pc as [|i stop|]; cbn in E.
      - destruct (decide _); [left; by injection E|].
        destruct (BaseStates.loop_next self 0 _) as [[[row|]|e] pc3] eqn:E3;
          injection E as <- <-; [right; eauto|left..];
          (eapply loop_next_stops; [done|done]).
      - destruct (BaseStates.loop_next self i _) as [[[row|]|e] pc3] eqn:E3;
          injection E as <- <-; [right; eauto|left..];
          (eapply loop_next_stops; [done|done]).
      - left. by injection E. }
    + destruct r' as [[[k v]|]|e]; [destruct (BaseStates.new 1 _)|..];
        by injection Hn as <- <-.
    + destruct (BaseStates.new 1 _); injection Hn as <- <-; [|done].
      by edestruct Hr.
Qed.

(** After [list_] the generator is exhausted: it will not yield again. *)
Lemma list_exhausts self g r g' :
  BaseStates.list_ self g = (r, g') → BaseStates.pending self g' = 0.
Proof.
  unfold BaseStates.list_.
  remember (BaseStates.pending self g) as p eqn:Hp.
  revert g r Hp. induction (lt_wf p) as [p _ IH]. intros g r ->. cbn.
  destruct (BaseStates.next self g) as [[[v|]|e] g1] eqn:E.
  - pose proof (next_pending _ _ _ _ E) as Hdec.
    rewrite collect_enough by lia. unfold BaseStates.list_.
    destruct (BaseStates.collect _ self g1) as [[vs|e] g2] eqn:E2;
      intros [= _ <-]; by eapply (IH _ Hdec g1).
  - intros [= _ <-]. by eapply next_stops.
  - intros [= _ <-]. by eapply next_stops.
Qed.

End generators.

(** ** Traversals of [keys], [vals] and [items] *)

Section traversals.
Context {T : Type}.
Implicit Types (self : BaseStates.t T) (it : list string).
Local Arguments BaseStates.__getitem__ : simpl never.

Lemma collect_keys self it fuel :
  length it < fuel →
  BaseStates.collect fuel self (BaseStates.GenKeys it)
  = (Ok (BaseStates.VStr <$> it), BaseStates.GenKeys []).
Proof.
  revert fuel. induction it as [|name it IH]; intros [|fuel] Hf; cbn in *; try lia.
  - done.
  - rewrite IH by lia. done.
Qed.

Lemma collect_vals self it (f : string → BaseStates.value T) fuel :
  length it < fuel →
  (∀ name, name ∈ it → BaseStates.__getitem__ self (BaseStates.IStr name) = Ok (f name)) →
  BaseStates.collect fuel self (BaseStates.GenVals it)
  = (Ok (f <$> it), BaseStates.GenVals []).
Proof.
  revert fuel. induction it as [|name it IH]; intros [|fuel] Hf Hget; cbn in *; try lia.
  - done.
  - rewrite (Hget name) by left. rewrite IH; [done|lia|].
    intros ??. apply Hget. by right.
Qed.

Lemma collect_items self it (f : string → BaseStates.value T) fuel :
  length it < fuel →
  (∀ name, name ∈ it → BaseStates.__getitem__ self (BaseStates.IStr name) = Ok (f name)) →
  BaseStates.collect fuel self (BaseStates.GenItems it)
  = (Ok ((λ name, BaseStates.VTuple [BaseStates.VStr name; f name]) <$> it),
     BaseStates.GenItems []).
Proof.
  revert fuel. induction it as [|name it IH]; intros [|fuel] Hf Hget; cbn in *; try lia.
  - done.
  - rewrite (Hget name) by left. rewrite IH; [done|lia|].
    intros ??. apply Hget. by right.
Qed.

Lemma list_keys self :
  BaseStates.list_ self (BaseStates.keys self)
  = (Ok (BaseStates.VStr <$> BaseStates._names self), BaseStates.GenKeys []).
Proof. apply collect_keys. cbn. lia. Qed.

Lemma names_of_keys (names : list string) :
  omap (λ v : BaseStates.value T,
          match v with BaseStates.VStr s => Some s | _ => None end)
       (BaseStates.VStr <$> names) = names.
Proof. induction names as [|name names IH]; cbn; [done|]. by rewrite IH. Qed.

Lemma contains_keys self key it fuel :
  length it < fuel →
  BaseStates.contains fuel self key (BaseStates.GenKeys it)
  = Ok (bool_decide (key ∈ it)).
Proof.
  revert fuel. induction it as [|name it IH]; intros [|fuel] Hf; cbn in *; try lia.
  - by rewrite bool_decide_eq_false_2 by apply not_elem_of_nil.
  - destruct (decide (key = name)) as [->|Hne].
    + by rewrite bool_decide_eq_true_2 by left.
    + rewrite IH by lia. f_equal. apply bool_decide_ext.
      rewrite elem_of_cons. split; [by right|intros [?|?]; [congruence|done]].
Qed.

Lemma in_keys self key :
  BaseStates.in_ self key (BaseStates.keys self)
  = Ok (bool_decide (key ∈ BaseStates._names self)).
Proof. apply contains_keys. cbn. lia. Qed.

(** The array that a well-formed container binds to a name. *)
Lemma wf_getitem_total self :
  BaseStates.wf self →
  ∃ f : string → np.ndarray T,
    ∀ name, name ∈ BaseStates._names self →
      BaseStates.attrs self !! name = Some (f name) ∧
      BaseStates.__getitem__ self (BaseStates.IStr name)
      = Ok (BaseStates.VArray (f name)).
Proof.
  intros Hwf.
  exists (λ name, default (np.array [] []) (BaseStates.attrs self !! name)).
  intros name Hin. destruct (wf_getitem self name Hwf Hin) as (a & Ha & Hg).
  rewrite Ha. done.
Qed.

End traversals.

(** ** Construction from keyword arguments *)

Section construction.
Context {T : Type}.
Implicit Types (kwargs : list (string * np.ndarray T)).

Lemma bind_all_notin kwargs d name :
  name ∉ kwargs.*1 → BaseStates.bind_all kwargs d !! name = d !! name.
Proof.
  revert d. induction kwargs as [|[k v] kwargs IH]; intros d Hn; [done|].
  cbn in *. apply not_elem_of_cons in Hn as [Hne Hn].
  unfold BaseStates.bind_all in *. cbn. rewrite IH by done. by rewrite lookup_insert_ne.
Qed.

Lemma bind_all_in kwargs d name a :
  NoDup kwargs.*1 → (name, a) ∈ kwargs → BaseStates.bind_all kwargs d !! name = Some a.
Proof.
  revert d. induction kwargs as [|[k v] kwargs IH]; intros d Hnd Hin.
  - by apply elem_of_nil in Hin.
  - cbn in Hnd. apply NoDup_cons in Hnd as [Hk Hnd].
    apply elem_of_cons in Hin as [[= -> ->]|Hin].
    + change (BaseStates.bind_all kwargs (<[k:=v]> d) !! k = Some v).
      rewrite bind_all_notin by done. apply lookup_insert_eq.
    + change (BaseStates.bind_all kwargs (<[k:=v]> d) !! name = Some a). by apply IH.
Qed.

Lemma bind_all_is_Some kwargs name :
  is_Some (BaseStates.bind_all kwargs ∅ !! name) → name ∈ kwargs.*1.
Proof.
  intros H. destruct (decide (name ∈ kwargs.*1)) as [|Hn]; [done|].
  rewrite bind_all_notin in H by done. rewrite lookup_empty in H. by destruct H.
Qed.

Lemma new_ok batch_size kwargs :
  "n"%string ∉ kwargs.*1 →
  BaseStates.new batch_size kwargs
  = Ok {| BaseStates._names := kwargs.*1; BaseStates._attr_dict := kwargs;
          BaseStates.attrs := BaseStates.bind_all kwargs ∅;
          BaseStates._n_walkers := batch_size |}.
Proof.
  intros Hn. unfold BaseStates.new, BaseStates.__init__. cbn.
  rewrite (for_each_ok _ (λ d kv, <[kv.1 := kv.2]> d)); [done|].
  intros d [k v] Hin. unfold BaseStates.setattr. cbn.
  destruct (decide (k = "n"%string)) as [->|]; [|done].
  destruct Hn. apply list_elem_of_fmap. by exists ("n"%string, v).
Qed.

Lemma names_ok_not_n (names : list string) :
  Forall BaseStates.attr_name_ok names → "n"%string ∉ names.
Proof.
  intros Hok Hin. eapply Forall_forall in Hok; [|done].
  by apply attr_name_ok_inv in Hok as [? _].
Qed.

Lemma new_wf batch_size kwargs :
  Forall BaseStates.attr_name_ok kwargs.*1 → NoDup kwargs.*1 →
  ∃ s, BaseStates.new batch_size kwargs = Ok s ∧
       BaseStates.wf s ∧
       BaseStates.n s = batch_size ∧
       BaseStates._names s = kwargs.*1 ∧
       BaseStates._attr_dict s = kwargs ∧
       (∀ name a, (name, a) ∈ kwargs → BaseStates.attrs s !! name = Some a).
Proof.
  intros Hok Hnd. eexists. split; [apply new_ok, names_ok_not_n, Hok|].
  split; [|split; [done|split; [done|split; [done|]]]].
  - constructor; cbn; [done|done|..].
    + intros name ([k a] & -> & Hin)%list_elem_of_fmap. cbn.
      rewrite (bind_all_in _ _ _ a); eauto.
    + intros name Hs%bind_all_is_Some. eapply Forall_forall in Hok; done.
  - intros name a Hin. cbn. by apply bind_all_in.
Qed.

End construction.

(** ** The example containers are well formed *)

Ltac by_compute := apply (bool_decide_unpack _); vm_compute; exact I.

Ltac name_ok := unfold BaseStates.attr_name_ok; by_compute.

Ltac example_wf :=
  constructor; cbn;
  [ repeat (constructor; [name_ok|]); constructor
  | by_compute
  | let Hin := fresh in
    intros ? Hin;
    repeat (apply elem_of_cons in Hin as [->|Hin]; [by eexists|]);
    by apply elem_of_nil in Hin
  | let Ha := fresh in
    intros ? [? Ha];
    repeat (match type of Ha with
            | <[?k := _]> _ !! ?name = _ =>
                destruct (decide (name = k)) as [->|];
                [name_ok|rewrite lookup_insert_ne in Ha by done]
            end);
    done ].

Lemma one_walker_wf x y r : BaseStates.wf (Examples.one_walker x y r).
Proof. example_wf. Qed.

Lemma two_walkers_wf : BaseStates.wf Examples.two_walkers.
Proof. example_wf. Qed.

Lemma three_walkers_wf : BaseStates.wf Examples.three_walkers.
Proof. example_wf. Qed.

(** ** Assignment keeps the names *)

Lemma setitem_wf {T} (self : BaseStates.t T) key val :
  BaseStates.attr_name_ok key → BaseStates.wf self →
  ∃ self', BaseStates.__setitem__ self key val = (Ok (), self') ∧
           BaseStates.wf self' ∧
           BaseStates._names self' = BaseStates._names self ∧
           BaseStates.n self' = BaseStates.n self.
Proof.
  intros Hok Hwf. unfold BaseStates.__setitem__, BaseStates.setattr.
  apply attr_name_ok_inv in Hok as Hinv. destruct Hinv as [Hn _].
  rewrite decide_False by done. eexists. split; [done|].
  split; [|done]. constructor; cbn; [apply Hwf|apply Hwf|..].
  - intros name Hin. destruct (decide (name = key)) as [->|Hne].
    + rewrite lookup_insert_eq. by eexists.
    + rewrite lookup_insert_ne by done. by apply Hwf.
  - intros name. destruct (decide (name = key)) as [->|Hne]; [done|].
    rewrite lookup_insert_ne by done. apply Hwf.
Qed.

(** ** Claims on construction, access and enumeration *)

Section container_claims.
Context {T : Type}.
Implicit Types (self : BaseStates.t T) (key name : string).
Local Arguments BaseStates.__getitem__ : simpl never.

(** C3 (as the code has it): construction from explicit name-to-array
    bindings makes no check on the leading dimensions.  For every batch
    size and all bindings under distinct, usable attribute names it
    succeeds, the container reports [batch_size] walkers, enumerates the
    names in the order given and binds every array as it was passed,
    whatever the shapes are. *)
Theorem init_accepts_any_shapes (batch_size : Z) (kwargs : list (string * np.ndarray T)) :
  Forall BaseStates.attr_name_ok kwargs.*1 → NoDup kwargs.*1 →
  ∃ s, BaseStates.__init__ (Schema := Empty_set) batch_size None kwargs = Ok s ∧
       BaseStates.n s = batch_size ∧
       BaseStates._names s = kwargs.*1 ∧
       (∀ name a, (name, a) ∈ kwargs → BaseStates.attrs s !! name = Some a).
Proof.
  intros Hok Hnd.
  destruct (new_wf batch_size kwargs Hok Hnd) as (s & Hs & _ & Hn & Hnames & _ & Hb).
  exists s. done.
Qed.

(** C4 (as the code has it): on a well-formed container, one that binds
    nothing under a reserved name such as that of a method, [get] of a
    name that is not among the container's names returns the default,
    which is [None] unless the caller passes one, and does not fail; [get]
    of a name of the container returns the array bound to the name. *)
Theorem get_default_or_array self key (default : BaseStates.value T) :
  BaseStates.wf self →
  (key ∉ BaseStates._names self → BaseStates.get self key default = Ok default) ∧
  (key ∈ BaseStates._names self →
   ∃ a, BaseStates.attrs self !! key = Some a ∧
        BaseStates.get self key default = Ok (BaseStates.VArray a)).
Proof.
  intros Hwf. unfold BaseStates.get. rewrite in_keys. split.
  - intros Hn. by rewrite bool_decide_eq_false_2.
  - intros Hin. rewrite bool_decide_eq_true_2 by done. cbn.
    by apply wf_getitem.
Qed.

(** C6 (as the code has it): on a well-formed container, [keys], [vals]
    and [items] each return a new generator over the names fixed at
    construction, in that order.  A generator is used up by one traversal
    and yields nothing afterwards; calling the method again gives a
    generator that enumerates the same names, also after items were
    assigned under usable keys (keys that are not reserved).  [vals] and
    [items] read the arrays while they are traversed: a generator made
    before such an assignment and traversed after it yields what a
    generator made after it yields. *)
Theorem keys_vals_items_single_use self :
  BaseStates.wf self →
  ∃ arr : string → np.ndarray T,
    (∀ name, name ∈ BaseStates._names self →
       BaseStates.attrs self !! name = Some (arr name)) ∧
    BaseStates.list_ self (BaseStates.keys self)
    = (Ok (BaseStates.VStr <$> BaseStates._names self), BaseStates.GenKeys []) ∧
    BaseStates.list_ self (BaseStates.vals self)
    = (Ok ((λ name, BaseStates.VArray (arr name)) <$> BaseStates._names self),
       BaseStates.GenVals []) ∧
    BaseStates.list_ self (BaseStates.items self)
    = (Ok ((λ name, BaseStates.VTuple [BaseStates.VStr name; BaseStates.VArray (arr name)])
             <$> BaseStates._names self),
       BaseStates.GenItems []) ∧
    BaseStates.list_ self (BaseStates.GenKeys []) = (Ok [], BaseStates.GenKeys []) ∧
    BaseStates.list_ self (BaseStates.GenVals []) = (Ok [], BaseStates.GenVals []) ∧
    BaseStates.list_ self (BaseStates.GenItems []) = (Ok [], BaseStates.GenItems []) ∧
    (∀ key val,
       BaseStates.attr_name_ok key →
       BaseStates.keys (BaseStates.__setitem__ self key val).2 = BaseStates.keys self ∧
       BaseStates.vals (BaseStates.__setitem__ self key val).2 = BaseStates.vals self ∧
       BaseStates.items (BaseStates.__setitem__ self key val).2 = BaseStates.items self) ∧
    (∀ key val,
       BaseStates.attr_name_ok key →
       let self' := (BaseStates.__setitem__ self key val).2 in
       BaseStates.list_ self' (BaseStates.vals self)
       = BaseStates.list_ self' (BaseStates.vals self') ∧
       BaseStates.list_ self' (BaseStates.items self)
       = BaseStates.list_ self' (BaseStates.items self')).
Proof.
  intros Hwf. destruct (wf_getitem_total self Hwf) as [arr Harr].
  exists arr. split; [intros name Hin; by apply Harr|].
  split; [apply list_keys|].
  split; [apply collect_vals; [cbn; lia|intros name Hin; by apply Harr]|].
  split.
  { apply (collect_items self _ (λ name, BaseStates.VArray (arr name)));
      [cbn; lia|intros name Hin; by apply Harr]. }
  do 3 (split; [done|]).
  assert (∀ key val,
    BaseStates._names (BaseStates.__setitem__ self key val).2 = BaseStates._names self)
    as Hnames.
  { intros key val. unfold BaseStates.__setitem__.
    by destruct (BaseStates.setattr _ _ _). }
  split; intros key val _; cbn zeta;
    unfold BaseStates.keys, BaseStates.vals, BaseStates.items; by rewrite Hnames.
Qed.

(** C9: indexing with a string that names no attribute raises
    [AttributeError]; for no string does the lookup raise a [TypeError], so
    the handler in [__getitem__] never runs; an index that is neither a
    string nor a list raises [TypeError]. *)
Theorem getitem_absent_raises_AttributeError self key :
  BaseStates.hasattr self key = false →
  BaseStates.__getitem__ self (BaseStates.IStr key) = Raise AttributeError ∧
  (∀ s msg, BaseStates.getattr self s ≠ Raise (TypeError msg) ∧
            BaseStates.__getitem__ self (BaseStates.IStr s) ≠ Raise (TypeError msg)) ∧
  (∀ repr, ∃ msg, BaseStates.__getitem__ self (BaseStates.IOther repr)
                  = Raise (TypeError msg)).
Proof.
  intros Hno. split; [|split].
  - rewrite getitem_str. unfold BaseStates.hasattr in Hno.
    destruct (BaseStates.getattr self key) as [v|e] eqn:E; [done|].
    by apply getattr_raises in E as ->.
  - intros s msg.
    assert (BaseStates.getattr self s ≠ Raise (TypeError msg)) as Hg.
    { intros E. by apply getattr_raises in E. }
    split; [done|]. by rewrite getitem_str.
  - intros repr. by eexists.
Qed.

End container_claims.

(** ** Claims on the abstract collaborators *)

Section collaborators.
Context {T Self Obj Schema Kwargs : Type}.

(** C7: every operation that the base classes leave to be overridden
    raises [NotImplementedError] at once and returns the object as it
    received it; a container built from a schema fails the same way, in
    [params_to_arrays], before an attribute is bound. *)
Theorem missing_override_raises_NotImplementedError :
  (∀ (self : Self) (param_dict : Schema) n_walkers,
     BaseStates.params_to_arrays (T := T) self param_dict n_walkers
     = (Raise NotImplementedError, self)) ∧
  (∀ (self : BaseStates.t T) will_clone compas_ix,
     BaseStates.clone self will_clone compas_ix = (Raise NotImplementedError, self)) ∧
  (∀ (self : BaseStates.t T) other (kwargs : Kwargs),
     BaseStates.update self other kwargs = (Raise NotImplementedError, self)) ∧
  (∀ (self : BaseStates.t T),
     BaseStates.get_params_dict (Schema := Schema) self
     = (Raise NotImplementedError, self)) ∧
  (∀ batch_size (state_dict : Schema) kwargs,
     BaseStates.__init__ (T := T) batch_size (Some state_dict) kwargs
     = Raise NotImplementedError) ∧
  (∀ (self : Self) (actions env_states : Obj) args kwargs,
     BaseEnvironment.step self actions env_states args kwargs
     = (Raise NotImplementedError, self)) ∧
  (∀ (self : Self) batch_size (env_states : option Obj),
     BaseEnvironment.reset self batch_size env_states
     = (Raise NotImplementedError, self)) ∧
  (∀ (self : Self),
     BaseEnvironment.get_params_dict (Obj := Obj) self
     = (Raise NotImplementedError, self)) ∧
  (∀ (self : Self),
     BaseModel.get_params_dict (Obj := Obj) self = (Raise NotImplementedError, self)) ∧
  (∀ (self : Self) batch_size,
     BaseModel.reset (Obj := Obj) self batch_size = (Raise NotImplementedError, self)) ∧
  (∀ (self : Self) (model_states env_states walkers_states : option Obj),
     BaseModel.predict self model_states env_states walkers_states
     = (Raise NotImplementedError, self)) ∧
  (∀ (self : Self) (model_states env_states walkers_states : option Obj),
     BaseModel.calculate_dt self model_states env_states walkers_states
     = (Raise NotImplementedError, self)) ∧
  (∀ (self : BaseWalkers.t Obj),
     BaseWalkers.env_states self = (Raise NotImplementedError, self) ∧
     BaseWalkers.model_states self = (Raise NotImplementedError, self) ∧
     BaseWalkers.states self = (Raise NotImplementedError, self) ∧
     BaseWalkers.get_env_states self = (Raise NotImplementedError, self) ∧
     BaseWalkers.get_model_states self = (Raise NotImplementedError, self) ∧
     BaseWalkers.calculate_distances self = (Raise NotImplementedError, self) ∧
     BaseWalkers.calculate_virtual_reward self = (Raise NotImplementedError, self) ∧
     BaseWalkers.calculate_end_condition self = (Raise NotImplementedError, self) ∧
     BaseWalkers.clone_walkers self = (Raise NotImplementedError, self) ∧
     BaseWalkers.get_alive_compas self = (Raise NotImplementedError, self) ∧
     BaseWalkers.balance self = (Raise NotImplementedError, self)) ∧
  (∀ (self : BaseWalkers.t Obj) env_states model_states kwargs args clone_ix will_clone,
     BaseWalkers.update_states self env_states model_states kwargs
     = (Raise NotImplementedError, self) ∧
     BaseWalkers.reset self args kwargs = (Raise NotImplementedError, self) ∧
     BaseWalkers.update_clone_probs self clone_ix will_clone
     = (Raise NotImplementedError, self)) ∧
  (∀ (self : BaseSwarm.t Obj) model_states env_states walkers_states,
     BaseSwarm.reset self model_states env_states walkers_states
     = (Raise NotImplementedError, self) ∧
     BaseSwarm.run_swarm self model_states env_states walkers_states
     = (Raise NotImplementedError, self) ∧
     BaseSwarm.step_walkers self = (Raise NotImplementedError, self)) ∧
  (∀ (self : BaseSwarm.t Obj) env model walkers n_walkers,
     BaseSwarm._init_swarm self []
       [("env_callable", env); ("model_callable", model);
        ("walkers_callable", walkers); ("n_walkers", n_walkers)]%string
     = (Raise NotImplementedError, self)).
Proof. repeat split. Qed.

(** The keywords that [BaseSwarm.__init__] passes do not clash with the
    parameters that positional arguments filled only when there are no
    positional arguments. *)
Lemma init_swarm_from_init (self : BaseSwarm.t Obj) args
    (env model walkers n_walkers reward_scale dist_scale : Obj) kwargs :
  BaseSwarm._init_swarm self args
    ([ ("env_callable", env); ("model_callable", model);
       ("walkers_callable", walkers); ("n_walkers", n_walkers);
       ("reward_scale", reward_scale); ("dist_scale", dist_scale) ]%string ++ kwargs)
  = (Raise (match args with
            | [] => NotImplementedError
            | _ => TypeError "_init_swarm() got multiple values for argument"
            end), self).
Proof.
  unfold BaseSwarm._init_swarm. destruct args as [|a args].
  - cbn [length take]. rewrite bool_decide_eq_false_2.
    + rewrite bool_decide_eq_true_2; [done|].
      unfold BaseSwarm.init_swarm_required, BaseSwarm.init_swarm_params. cbn.
      repeat (constructor; [right; set_solver|]). constructor.
    + intros (kv & _ & Hin)%Exists_exists. by apply elem_of_nil in Hin.
  - rewrite bool_decide_eq_true_2; [done|].
    apply Exists_cons_hd. cbn. left.
Qed.

(** C10: constructing a [BaseSwarm] always fails.  The constructor sets
    [_walkers], [_model], [_env] and [tree] to [None] and [epoch] to 0 and
    then calls [_init_swarm], whose body on the base class raises
    [NotImplementedError] (with extra positional arguments, or a keyword
    given twice, the call is already a [TypeError]).  Whatever class
    overrides [_init_swarm], the method runs on an object with [epoch = 0],
    and the constructor returns what the method returns. *)
Theorem BaseSwarm_constructor_fails
    (env model walkers n_walkers reward_scale dist_scale : Obj)
    (args : list Obj) (kwargs : list (string * Obj)) :
  let construct init_swarm :=
    BaseSwarm.__init__ init_swarm env model walkers n_walkers reward_scale
                       dist_scale args kwargs in
  (∃ e self,
     construct BaseSwarm._init_swarm = (Raise e, self) ∧
     BaseSwarm.epoch self = 0%Z ∧
     match args, bool_decide (Forall (λ kv, kv.1 ∉ BaseSwarm.init_swarm_params) kwargs) with
     | [], true => e = NotImplementedError
     | _, _ => ∃ msg, e = TypeError msg
     end) ∧
  (∀ init_swarm : BaseSwarm.method Obj,
     ∃ self keywords,
       BaseSwarm._walkers self = None ∧ BaseSwarm._model self = None ∧
       BaseSwarm._env self = None ∧ BaseSwarm.tree self = None ∧
       BaseSwarm.epoch self = 0%Z ∧
       (construct init_swarm = init_swarm self args keywords ∨
        ∃ msg, construct init_swarm = (Raise (TypeError msg), self))).
Proof.
  cbn zeta. unfold BaseSwarm.__init__. split.
  - destruct (bool_decide (Exists _ kwargs)) eqn:Hclash.
    + eexists _, _. split; [done|]. split; [done|].
      apply bool_decide_eq_true_1 in Hclash.
      rewrite bool_decide_eq_false_2.
      * destruct args; by eexists.
      * intros Hall. apply Exists_exists in Hclash as (kv & Hin & Hkv).
        eapply Forall_forall in Hall; [|done]. by destruct Hall.
    + rewrite init_swarm_from_init. eexists _, _. split; [done|]. split; [done|].
      apply bool_decide_eq_false_1 in Hclash.
      destruct args; [|by eexists].
      rewrite bool_decide_eq_true_2; [done|].
      apply Forall_forall. intros kv Hin Hkv. apply Hclash.
      apply Exists_exists. by exists kv.
  - intros init_swarm.
    exists {| BaseSwarm._walkers := None; BaseSwarm._model := None;
              BaseSwarm._env := None; BaseSwarm.tree := None;
              BaseSwarm.epoch := 0 |}.
    eexists. do 5 (split; [done|]).
    destruct (bool_decide (Exists _ kwargs)); [right; by eexists|left; done].
Qed.

End collaborators.

(** ** The claims above at concrete containers *)

Section container_instances.
Local Open Scope string_scope.

Lemma hasattr_unbound {T} (self : BaseStates.t T) key :
  BaseStates.attr_name_ok key → BaseStates.attrs self !! key = None →
  BaseStates.hasattr self key = false.
Proof.
  intros Hok Hnone. unfold BaseStates.hasattr. by rewrite getattr_array, Hnone.
Qed.

(** An array of two rows is accepted for a batch of three walkers. *)
Lemma init_accepts_leading_dimension_mismatch :
  let a := np.array [2] [10; 20]%Z in
  head (np.shape a) = Some 2 ∧
  ∃ s, BaseStates.__init__ (Schema := Empty_set) 3 None [("rewards", a)] = Ok s ∧
       BaseStates.n s = 3%Z ∧ BaseStates.attrs s !! "rewards" = Some a.
Proof. cbn zeta. split; [done|]. eexists. split; [done|]. split; by vm_compute. Qed.

Lemma init_accepts_any_shapes_witness :
  let kwargs := [("observs", np.array [2; 2] [1; 2; 3; 4]%Z);
                 ("rewards", np.array [5] [0; 0; 0; 0; 0]%Z)] in
  Forall BaseStates.attr_name_ok kwargs.*1 ∧ NoDup kwargs.*1 ∧
  ∃ s, BaseStates.__init__ (Schema := Empty_set) 3 None kwargs = Ok s ∧
       BaseStates.n s = 3%Z ∧
       BaseStates._names s = kwargs.*1 ∧
       (∀ name a, (name, a) ∈ kwargs → BaseStates.attrs s !! name = Some a).
Proof.
  cbn zeta.
  assert (Forall BaseStates.attr_name_ok ["observs"; "rewards"]) as Hok.
  { repeat (constructor; [name_ok|]). constructor. }
  assert (NoDup ["observs"; "rewards"]) as Hnd by by_compute.
  split; [exact Hok|]. split; [exact Hnd|].
  exact (init_accepts_any_shapes 3
           [("observs", np.array [2; 2] [1; 2; 3; 4]%Z);
            ("rewards", np.array [5] [0; 0; 0; 0; 0]%Z)] Hok Hnd).
Defined.

(** [get] of a name that the container does not have returns [None]. *)
Lemma get_absent_returns_None :
  let self := Examples.one_walker 1 2 3 in
  ("actions" ∉ BaseStates._names self) ∧
  BaseStates.get self "actions" BaseStates.VNone = Ok BaseStates.VNone.
Proof. cbn zeta. split; [by_compute|]. by vm_compute. Qed.

Lemma get_default_or_array_witness :
  let self := Examples.one_walker 1 2 3 in
  (("actions" ∉ BaseStates._names self) ∧ BaseStates.wf self ∧
   ("observs" ∈ BaseStates._names self)) ∧
  BaseStates.get self "actions" (BaseStates.VInt 0) = Ok (BaseStates.VInt 0) ∧
  ∃ a, BaseStates.attrs self !! "observs" = Some a ∧
       BaseStates.get self "observs" BaseStates.VNone = Ok (BaseStates.VArray a).
Proof.
  cbn zeta.
  assert ("actions" ∉ BaseStates._names (Examples.one_walker 1 2 3)) as Hn by by_compute.
  assert ("observs" ∈ BaseStates._names (Examples.one_walker 1 2 3)) as Hin by by_compute.
  split; [split; [exact Hn|split; [apply one_walker_wf|exact Hin]]|].
  split.
  - exact (proj1 (get_default_or_array _ "actions" (BaseStates.VInt 0)
                    (one_walker_wf 1 2 3)) Hn).
  - exact (proj2 (get_default_or_array _ "observs" BaseStates.VNone
                    (one_walker_wf 1 2 3)) Hin).
Defined.

(** The generator that [keys] returned is used up by one traversal. *)
Lemma keys_generator_not_restartable :
  let self := Examples.two_walkers in
  let first := BaseStates.list_ self (BaseStates.keys self) in
  let second := BaseStates.list_ self first.2 in
  first.1 = Ok [BaseStates.VStr "rewards"] ∧ second.1 = Ok [].
Proof. cbn zeta. split; by vm_compute. Qed.

Lemma keys_vals_items_single_use_witness :
  let self := Examples.two_walkers in
  (BaseStates.wf self ∧ BaseStates.attr_name_ok "actions") ∧
  BaseStates.list_ self (BaseStates.keys self)
  = (Ok (BaseStates.VStr <$> BaseStates._names self), BaseStates.GenKeys []) ∧
  BaseStates.list_ self (BaseStates.GenKeys []) = (Ok [], BaseStates.GenKeys []) ∧
  BaseStates.keys (BaseStates.__setitem__ self "actions" (inr [1%Z])).2
  = BaseStates.keys self.
Proof.
  cbn zeta.
  assert (BaseStates.attr_name_ok "actions") as Hok by name_ok.
  split; [split; [apply two_walkers_wf|exact Hok]|].
  destruct (keys_vals_items_single_use _ two_walkers_wf)
    as (arr & _ & Hkeys & _ & _ & Hagain & _ & _ & Hset & _).
  split; [exact Hkeys|]. split; [exact Hagain|].
  exact (proj1 (Hset "actions" (inr [1%Z]) Hok)).
Defined.

Lemma getitem_absent_raises_AttributeError_witness :
  let self := Examples.one_walker 1 2 3 in
  BaseStates.hasattr self "actions" = false ∧
  BaseStates.__getitem__ self (BaseStates.IStr "actions") = Raise AttributeError.
Proof.
  cbn zeta.
  assert (BaseStates.hasattr (Examples.one_walker 1 2 3) "actions" = false) as Hno
    by (by vm_compute).
  split; [exact Hno|].
  exact (proj1 (getitem_absent_raises_AttributeError _ "actions" Hno)).
Defined.

End container_instances.

(** ** Rows of arrays *)

Section rows.
Context {T : Type}.
Implicit Types (a : np.ndarray T) (rows : list (list T)).

Lemma getitem_row a d i :
  head (np.shape a) = Some d → i < d → np.getitem a i = Ok (np.row a i).
Proof.
  unfold np.getitem, np.row. destruct (np.shape a) as [|d' rest]; [done|].
  intros [= ->] Hi. cbn. by rewrite decide_True.
Qed.

Lemma getitem_out_of_range a d i :
  head (np.shape a) = Some d → d ≤ i → np.getitem a i = Raise IndexError.
Proof.
  unfold np.getitem. destruct (np.shape a) as [|d' rest]; [done|].
  intros [= ->] Hi. cbn. rewrite decide_False; [done|lia].
Qed.

(** Row [i] of the concatenation of rows of length [k]. *)
Lemma take_drop_concat rows k i r :
  Forall (λ r, length r = k) rows → rows !! i = Some r →
  take k (drop (i * k) (concat rows)) = r.
Proof.
  intros Hlen. revert i. induction Hlen as [|r0 rows Hr0 _ IH]; intros i Hi; [done|].
  destruct i as [|i]; cbn in *.
  - injection Hi as ->. by rewrite drop_0, take_app_length'.
  - rewrite drop_app_add' by done. by apply IH.
Qed.

Lemma length_concat_uniform rows k :
  Forall (λ r, length r = k) rows → length (concat rows) = length rows * k.
Proof.
  induction 1 as [|r rows Hr _ IH]; cbn; [done|].
  rewrite length_app, IH, Hr. lia.
Qed.

Lemma row_of_stacked (sh : list nat) rows N i r :
  Forall (λ r, length r = np.size_of sh) rows → rows !! i = Some r →
  np.row (np.array (N :: sh) (concat rows)) i = np.array sh r.
Proof.
  intros Hlen Hi. unfold np.row. cbn. f_equal. by eapply take_drop_concat.
Qed.

End rows.

(** ** The per-walker generators *)

Section walker_generators.
Context {T : Type}.
Implicit Types (self : BaseStates.t T) (g : BaseStates.generator).
Local Arguments BaseStates.__getitem__ : simpl never.
Local Arguments BaseStates.new : simpl never.
Local Arguments BaseStates.loop_next : simpl never.
Local Arguments BaseStates.walker_row : simpl never.

(** A generator that yields [val i] at every index of its loop and then
    stops is collected into the values of the remaining indices. *)
Lemma collect_loop self (mk : BaseStates.loop_pc → BaseStates.generator)
    (val : nat → BaseStates.value T) stop :
  (∀ i, i < stop →
     BaseStates.next self (mk (BaseStates.PcLoop i stop))
     = (Ok (Some (val i)), mk (BaseStates.PcLoop (S i) stop))) →
  BaseStates.next self (mk (BaseStates.PcLoop stop stop)) = (Ok None, mk BaseStates.PcDone) →
  ∀ k i fuel, i + k = stop → k < fuel →
    BaseStates.collect fuel self (mk (BaseStates.PcLoop i stop))
    = (Ok (val <$> seq i k), mk BaseStates.PcDone).
Proof.
  intros Hstep Hstop k. induction k as [|k IH]; intros i [|fuel] Hik Hf; try lia.
  - cbn. replace i with stop by lia. by rewrite Hstop.
  - cbn. rewrite Hstep by lia. rewrite IH by lia. done.
Qed.

(** The row of walker [i] in a well-formed container of [N] walkers. *)
Lemma walker_row_batched self N :
  BaseStates.wf self → BaseStates.batched N self →
  ∃ arr : string → np.ndarray T,
    (∀ name, name ∈ BaseStates._names self →
       BaseStates.attrs self !! name = Some (arr name)) ∧
    ∀ j, j < N →
      BaseStates.walker_row self j
      = Ok ((λ name, np.row (arr name) j) <$> BaseStates._names self).
Proof.
  intros Hwf [Hn Hb]. destruct (wf_getitem_total self Hwf) as [arr Harr].
  exists arr. split; [intros name Hin; by apply Harr|].
  intros j Hj. unfold BaseStates.walker_row. apply traverse_ok.
  intros name Hin. destruct (Harr name Hin) as [Ha Hg]. rewrite Hg. cbn.
  destruct (Hb name _ Hin Ha) as [_ Hhd]. by eapply getitem_row.
Qed.

Lemma loop_next_ok self i stop row :
  i < stop → BaseStates.walker_row self i = Ok row →
  BaseStates.loop_next self i stop = (Ok (Some row), BaseStates.PcLoop (S i) stop).
Proof.
  intros Hi Hrow. unfold BaseStates.loop_next. by rewrite decide_True, Hrow.
Qed.

Lemma loop_next_end self stop :
  BaseStates.loop_next self stop stop = (Ok None, BaseStates.PcDone).
Proof. unfold BaseStates.loop_next. rewrite decide_False; [done|lia]. Qed.

(** [itervals] on at most one walker: the generator stops at once. *)
Lemma itervals_at_most_one_walker self :
  (BaseStates.n self ≤ 1)%Z →
  BaseStates.list_ self (BaseStates.itervals self)
  = (Ok [], BaseStates.GenItervals BaseStates.PcDone).
Proof.
  intros Hn. unfold BaseStates.list_, BaseStates.itervals. cbn.
  by rewrite decide_True.
Qed.

(** [itervals] on two walkers or more: one tuple of rows per walker. *)
Lemma itervals_rows self N (rows : nat → list (np.ndarray T)) :
  BaseStates.n self = Z.of_nat N → 2 ≤ N →
  (∀ i, i < N → BaseStates.walker_row self i = Ok (rows i)) →
  BaseStates.list_ self (BaseStates.itervals self)
  = (Ok ((λ i, BaseStates.VTuple (BaseStates.VArray <$> rows i)) <$> seq 0 N),
     BaseStates.GenItervals BaseStates.PcDone).
Proof.
  intros Hn HN Hrows.
  assert (∀ fuel, N < fuel →
    BaseStates.collect fuel self (BaseStates.GenItervals (BaseStates.PcLoop 0 N))
    = (Ok ((λ i, BaseStates.VTuple (BaseStates.VArray <$> rows i)) <$> seq 0 N),
       BaseStates.GenItervals BaseStates.PcDone)) as Hloop.
  { intros fuel Hf. apply (collect_loop self BaseStates.GenItervals); [..|done|done].
    - intros i Hi. cbn. by rewrite (loop_next_ok _ _ _ (rows i)) by auto.
    - cbn. by rewrite loop_next_end. }
  unfold BaseStates.list_, BaseStates.itervals.
  replace (BaseStates.pending self (BaseStates.GenItervals BaseStates.PcStart)) with N
    by (cbn; lia).
  rewrite <- (Hloop (S N)) by lia. cbn.
  rewrite decide_False by lia. by rewrite Hn, Nat2Z.id.
Qed.

(** [iteritems] on one walker or more: the names and the rows of every
    walker. *)
Lemma iteritems_rows self N (rows : nat → list (np.ndarray T)) :
  BaseStates.n self = Z.of_nat N → 1 ≤ N →
  (∀ i, i < N → BaseStates.walker_row self i = Ok (rows i)) →
  BaseStates.list_ self (BaseStates.iteritems self)
  = (Ok ((λ i, BaseStates.VTuple
                 [BaseStates.VTuple (BaseStates.VStr <$> BaseStates._names self);
                  BaseStates.VTuple (BaseStates.VArray <$> rows i)]) <$> seq 0 N),
     BaseStates.GenIteritems BaseStates.PcDone).
Proof.
  intros Hn HN Hrows.
  assert (∀ fuel, N < fuel →
    BaseStates.collect fuel self (BaseStates.GenIteritems (BaseStates.PcLoop 0 N))
    = (Ok ((λ i, BaseStates.VTuple
                   [BaseStates.VTuple (BaseStates.VStr <$> BaseStates._names self);
                    BaseStates.VTuple (BaseStates.VArray <$> rows i)]) <$> seq 0 N),
       BaseStates.GenIteritems BaseStates.PcDone)) as Hloop.
  { intros fuel Hf. apply (collect_loop self BaseStates.GenIteritems); [..|done|done].
    - intros i Hi. cbn. by rewrite (loop_next_ok _ _ _ (rows i)) by auto.
    - cbn. by rewrite loop_next_end. }
  unfold BaseStates.list_, BaseStates.iteritems.
  replace (BaseStates.pending self (BaseStates.GenIteritems BaseStates.PcStart)) with N
    by (cbn; lia).
  rewrite <- (Hloop (S N)) by lia. cbn.
  rewrite decide_False by lia. by rewrite Hn, Nat2Z.id.
Qed.

(** [iteritems] without walkers yields nothing. *)
Lemma iteritems_no_walker self :
  (BaseStates.n self < 1)%Z →
  BaseStates.list_ self (BaseStates.iteritems self)
  = (Ok [], BaseStates.GenIteritems BaseStates.PcDone).
Proof.
  intros Hn. unfold BaseStates.list_, BaseStates.iteritems. cbn.
  by rewrite decide_True.
Qed.

(** [split_states] on one walker or more: a container per walker, built
    from the names and the rows of the walker. *)
Lemma split_states_rows self N (rows : nat → list (np.ndarray T))
    (parts : nat → BaseStates.t T) :
  BaseStates.n self = Z.of_nat N → 1 ≤ N →
  (∀ i, i < N → BaseStates.walker_row self i = Ok (rows i)) →
  (∀ i, i < N →
     BaseStates.new 1 (dict (zip (BaseStates._names self) (rows i))) = Ok (parts i)) →
  BaseStates.list_ self (BaseStates.split_states self)
  = (Ok ((λ i, BaseStates.VStates (parts i)) <$> seq 0 N),
     BaseStates.GenSplitStates BaseStates.PcDone).
Proof.
  intros Hn HN Hrows Hparts.
  assert (∀ fuel, N < fuel →
    BaseStates.collect fuel self (BaseStates.GenSplitStates (BaseStates.PcLoop 0 N))
    = (Ok ((λ i, BaseStates.VStates (parts i)) <$> seq 0 N),
       BaseStates.GenSplitStates BaseStates.PcDone)) as Hloop.
  { intros fuel Hf. apply (collect_loop self BaseStates.GenSplitStates); [..|done|done].
    - intros i Hi. cbn. unfold BaseStates.split_states_next. cbn.
      rewrite (loop_next_ok _ _ _ (rows i)) by auto. by rewrite Hparts.
    - cbn. unfold BaseStates.split_states_next. cbn. by rewrite loop_next_end. }
  unfold BaseStates.list_, BaseStates.split_states.
  replace (BaseStates.pending self (BaseStates.GenSplitStates BaseStates.PcStart)) with N
    by (cbn; lia).
  rewrite <- (Hloop (S N)) by lia. cbn. unfold BaseStates.split_states_next. cbn.
  rewrite decide_False by lia. by rewrite Hn, Nat2Z.id.
Qed.

End walker_generators.

(** ** numpy: concatenation and reshaping *)
Section numpy_lemmas.
Context {T : Type}.
Implicit Types (a : np.ndarray T) (arrays : list (np.ndarray T)) (sh : list nat).

Lemma filter_nonneg_of_nat sh :
  filter (λ d, (0 ≤ d)%Z) (Z.of_nat <$> sh) = Z.of_nat <$> sh.
Proof.
  induction sh as [|d sh IH]; [done|].
  rewrite fmap_cons, filter_cons_True by lia. by rewrite IH.
Qed.

Lemma filter_neg_of_nat sh :
  filter (λ d, (d < 0)%Z) (Z.of_nat <$> sh) = [].
Proof.
  induction sh as [|d sh IH]; [done|].
  rewrite fmap_cons, filter_cons_False by lia. done.
Qed.

Lemma to_nat_of_nat sh : Z.to_nat <$> (Z.of_nat <$> sh) = sh.
Proof.
  induction sh as [|d sh IH]; [done|]. cbn. by rewrite Nat2Z.id, IH.
Qed.

Lemma reshape_to sh a :
  np.size_of sh = length (np.data a) →
  np.reshape a (Z.of_nat <$> sh) = Ok (np.array sh (np.data a)).
Proof.
  intros Hsize. unfold np.reshape.
  rewrite filter_neg_of_nat, filter_nonneg_of_nat, !to_nat_of_nat.
  by rewrite decide_True.
Qed.

Lemma sum_list_const (arrays : list (np.ndarray T)) d :
  Forall (λ a, hd 0 (np.shape a) = d) arrays →
  sum_list ((λ a, hd 0 (np.shape a)) <$> arrays) = length arrays * d.
Proof.
  induction 1 as [|a arrays Ha _ IH]; cbn; [done|]. rewrite Ha, IH. lia.
Qed.

Lemma concatenate_uniform sh arrays :
  arrays ≠ [] → sh ≠ [] → Forall (λ a, np.shape a = sh) arrays →
  np.concatenate arrays
  = Ok (np.array (length arrays * hd 0 sh :: tail sh) (concat (np.data <$> arrays))).
Proof.
  intros Hne Hsh Hall. unfold np.concatenate.
  destruct arrays as [|a0 arrays]; [done|].
  rewrite bool_decide_eq_false_2.
  2:{ intros (a & Hin & Ha)%Exists_exists. eapply Forall_forall in Hall; [|done].
      congruence. }
  rewrite bool_decide_eq_true_2.
  2:{ apply Forall_forall. intros a Hin.
      rewrite (proj1 (Forall_forall _ _) Hall a Hin).
      rewrite (proj1 (Forall_forall _ _) Hall a0); [done|left]. }
  rewrite (sum_list_const _ (hd 0 sh)).
  - apply Forall_inv in Hall as Ha0. by rewrite Ha0.
  - eapply Forall_impl; [done|]. by intros a ->.
Qed.

Lemma length_concat_data sh arrays :
  Forall (λ a, np.shape a = sh ∧ np.wf a) arrays →
  length (concat (np.data <$> arrays)) = length arrays * np.size_of sh.
Proof.
  intros Hall. rewrite (length_concat_uniform _ (np.size_of sh)).
  - by rewrite length_fmap.
  - apply Forall_fmap. eapply Forall_impl; [done|]. intros a [<- Hwf]. exact Hwf.
Qed.

(** Concatenating arrays of one shape and reshaping to their number
    followed by that shape stacks them. *)
Lemma concatenate_reshape sh arrays :
  arrays ≠ [] → sh ≠ [] → Forall (λ a, np.shape a = sh ∧ np.wf a) arrays →
  (joined ← np.concatenate arrays;
   np.reshape joined (Z.of_nat (length arrays) :: (Z.of_nat <$> sh)))
  = Ok (np.stack sh arrays).
Proof.
  intros Hne Hsh Hall.
  assert (Forall (λ a, np.shape a = sh) arrays) as Hshapes.
  { eapply Forall_impl; [done|]. by intros a [? _]. }
  rewrite (concatenate_uniform sh) by done.
  cbn [mbind result_bind].
  change (Z.of_nat (length arrays) :: (Z.of_nat <$> sh))
    with (Z.of_nat <$> (length arrays :: sh)).
  rewrite reshape_to; [done|]. cbn.
  by rewrite (length_concat_data sh).
Qed.

End numpy_lemmas.

(** ** [concat_states] on containers of one walker *)

Section concat.
Context {T : Type}.
Implicit Types (self s : BaseStates.t T) (states : list (BaseStates.t T)).
Implicit Types (names : list string) (schema : string → list nat).
Local Arguments BaseStates.__getitem__ : simpl never.
Local Arguments BaseStates.new : simpl never.

Lemma sum_single_walkers names schema states :
  Forall (BaseStates.single_walker names schema) states →
  sum (BaseStates.n <$> states) = Z.of_nat (length states).
Proof.
  induction 1 as [|s states (_ & Hn & _) _ IH]; [done|].
  change (sum (BaseStates.n <$> s :: states))
    with (BaseStates.n s + sum (BaseStates.n <$> states))%Z.
  rewrite Hn, IH. cbn [length]. lia.
Qed.

Lemma column_single_walkers names schema states name :
  name ∈ names → Forall (BaseStates.single_walker names schema) states →
  length (BaseStates.column states name) = length states ∧
  Forall (λ a, np.shape a = schema name ∧ np.wf a) (BaseStates.column states name) ∧
  (∀ i s, states !! i = Some s →
     BaseStates.column states name !! i = BaseStates.attrs s !! name) ∧
  traverse (λ s, v ← BaseStates.__getitem__ s (BaseStates.IStr name);
                 match v with
                 | BaseStates.VArray a => Ok a
                 | _ => Raise ValueError
                 end) states
  = Ok (BaseStates.column states name).
Proof.
  intros Hin. induction 1 as [|s states (Hwf & Hn & Hattrs) _ IH].
  - split; [done|]. split; [constructor|]. split; [|done]. by intros i s [=].
  - destruct IH as (Hlen & Hall & Hlook & Htr).
    destruct (Hattrs name Hin) as (a & Ha & Hsh & Hwfa).
    unfold BaseStates.column in *. cbn [omap list_omap]. rewrite Ha. cbn [length].
    split; [by rewrite Hlen|]. split; [by constructor|]. split.
    + intros [|i] s' Hi; cbn in *; [by injection Hi as <-|by apply Hlook].
    + cbn [traverse].
      rewrite (getitem_array s name a);
        [|by apply (BaseStates.wf_attrs_ok _ Hwf)|done].
      cbn. by rewrite Htr.
Qed.

Local Arguments np.concatenate : simpl never.
Local Arguments np.reshape : simpl never.

Lemma concat_attribute_stack names schema s0 rest name :
  name ∈ names → schema name ≠ [] →
  Forall (BaseStates.single_walker names schema) (s0 :: rest) →
  BaseStates.concat_attribute (Z.of_nat (length (s0 :: rest))) (s0 :: rest) name
  = Ok (np.stack (schema name) (BaseStates.column (s0 :: rest) name)).
Proof.
  intros Hin Hsh Hall.
  destruct (column_single_walkers _ _ _ name Hin Hall) as (Hlen & Hcol & _ & Htr).
  apply Forall_inv in Hall as (Hwf0 & _ & Hattrs0).
  destruct (Hattrs0 name Hin) as (a0 & Ha0 & Hsh0 & _).
  unfold BaseStates.concat_attribute. cbn [BaseStates.first_state mbind result_bind].
  rewrite (getitem_array s0 name a0);
    [|by apply (BaseStates.wf_attrs_ok _ Hwf0)|done].
  cbn [mbind result_bind]. rewrite Htr. cbn [mbind result_bind].
  rewrite Hsh0, <- Hlen. apply concatenate_reshape; [|done..].
  intros Hnil. by rewrite Hnil in Hlen.
Qed.

Lemma for_each_dict {V} (f : string → result V) (g : string → V) names
    (acc : list (string * V)) :
  NoDup names → (∀ name, name ∈ names → name ∉ acc.*1) →
  (∀ name, name ∈ names → f name = Ok (g name)) →
  for_each (λ d name, a ← f name; Ok (dict_set d name a)) names acc
  = Ok (acc ++ ((λ name, (name, g name)) <$> names)).
Proof.
  intros Hnd. revert acc. induction Hnd as [|name names Hname Hnd IH]; intros acc Hacc Hf.
  - cbn. by rewrite app_nil_r.
  - cbn [for_each]. rewrite (Hf name) by left. cbn [mbind result_bind].
    rewrite dict_set_fresh by (apply Hacc; left).
    rewrite IH.
    + by rewrite <- app_assoc.
    + intros name' Hin'. rewrite fmap_app. cbn. intros [Ha|Ha]%elem_of_app.
      * by apply (Hacc name'); [right|].
      * apply list_elem_of_singleton in Ha as ->. done.
    + intros name' Hin'. apply Hf. by right.
Qed.

(** [concat_states] on containers of one walker each stacks every
    attribute. *)
Lemma concat_states_stack names schema s0 rest :
  BaseStates._names s0 = names →
  Forall (BaseStates.single_walker names schema) (s0 :: rest) →
  (∀ name, name ∈ names → schema name ≠ []) →
  ∃ joined,
    BaseStates.concat_states (s0 :: rest) = Ok joined ∧
    BaseStates.wf joined ∧
    BaseStates.n joined = Z.of_nat (length (s0 :: rest)) ∧
    BaseStates._names joined = names ∧
    ∀ name, name ∈ names →
      BaseStates.attrs joined !! name
      = Some (np.stack (schema name) (BaseStates.column (s0 :: rest) name)).
Proof.
  intros Hnames Hall Hschema.
  pose proof (Forall_inv Hall) as (Hwf0 & _ & _).
  assert (Forall BaseStates.attr_name_ok names ∧ NoDup names) as [Hok Hnd].
  { rewrite <- Hnames. split; [apply Hwf0|apply Hwf0]. }
  set (kw := (λ name, (name, np.stack (schema name)
                               (BaseStates.column (s0 :: rest) name))) <$> names).
  assert (kw.*1 = names) as Hkeys.
  { unfold kw. rewrite <- list_fmap_compose. apply list_fmap_id. }
  destruct (new_wf (Z.of_nat (length (s0 :: rest))) kw) as (joined & Hnew & Hwf & Hn & Hj & _ & Hb).
  { by rewrite Hkeys. }
  { by rewrite Hkeys. }
  exists joined. split; [|split; [done|split; [done|split; [congruence|]]]].
  - unfold BaseStates.concat_states.
    rewrite (sum_single_walkers names schema) by done.
    cbn [BaseStates.first_state mbind result_bind].
    rewrite list_keys. cbn [fst fmap result_fmap mbind result_bind].
    rewrite names_of_keys, Hnames.
    rewrite (for_each_dict _ (λ name, np.stack (schema name)
                                        (BaseStates.column (s0 :: rest) name))).
    + cbn [mbind result_bind app]. exact Hnew.
    + done.
    + intros name _. apply not_elem_of_nil.
    + intros name Hin. apply (concat_attribute_stack names); auto.
  - intros name Hin. apply Hb. unfold kw. apply list_elem_of_fmap. by exists name.
Qed.

End concat.

(** ** [split_states] and the round trip through [concat_states] *)

Section split.
Context {T : Type}.
Implicit Types (self s : BaseStates.t T) (states : list (BaseStates.t T)).
Implicit Types (names : list string) (schema : string → list nat).
Local Arguments BaseStates.__getitem__ : simpl never.
Local Arguments BaseStates.new : simpl never.

Lemma zip_fmap_self {A B} (f : A → B) (l : list A) :
  zip l (f <$> l) = (λ x, (x, f x)) <$> l.
Proof. induction l as [|x l IH]; cbn; [done|]. by rewrite IH. Qed.

(** [split_states] on a well-formed container of [N >= 1] walkers: the
    [i]-th container it yields has one walker, the names of [self], and
    binds every name to row [i] of the array that [self] binds to it. *)
Lemma split_states_batched self N :
  BaseStates.wf self → BaseStates.batched N self → 1 ≤ N →
  ∃ parts : list (BaseStates.t T),
    BaseStates.list_ self (BaseStates.split_states self)
    = (Ok (BaseStates.VStates <$> parts), BaseStates.GenSplitStates BaseStates.PcDone) ∧
    length parts = N ∧
    ∀ i part, parts !! i = Some part →
      BaseStates.wf part ∧ BaseStates.n part = 1%Z ∧
      BaseStates._names part = BaseStates._names self ∧
      ∀ name a, name ∈ BaseStates._names self →
        BaseStates.attrs self !! name = Some a →
        BaseStates.attrs part !! name = Some (np.row a i).
Proof.
  intros Hwf Hb HN.
  destruct (walker_row_batched self N Hwf Hb) as (arr & Harr & Hrows).
  set (kw := λ i, (λ name, (name, np.row (arr name) i)) <$> BaseStates._names self).
  assert (∀ i, (kw i).*1 = BaseStates._names self) as Hkeys.
  { intros i. unfold kw. rewrite <- list_fmap_compose. apply list_fmap_id. }
  set (part := λ i, {| BaseStates._names := (kw i).*1; BaseStates._attr_dict := kw i;
                       BaseStates.attrs := BaseStates.bind_all (kw i) ∅;
                       BaseStates._n_walkers := 1 |}).
  assert (∀ i, BaseStates.new 1 (kw i) = Ok (part i)) as Hnew.
  { intros i. apply new_ok. rewrite Hkeys. apply names_ok_not_n, Hwf. }
  exists (part <$> seq 0 N). split; [|split].
  - rewrite <- list_fmap_compose.
    apply (split_states_rows self N
             (λ i, (λ name, np.row (arr name) i) <$> BaseStates._names self));
      [apply Hb|done|done|].
    intros i Hi. rewrite zip_fmap_self. rewrite dict_nodup; [apply Hnew|].
    fold (kw i). rewrite Hkeys. apply Hwf.
  - by rewrite length_fmap, length_seq.
  - intros i p Hp. apply list_lookup_fmap_Some in Hp as (j & -> & Hj).
    apply lookup_seq in Hj as [-> Hlt]. cbn in *.
    destruct (new_wf 1 (kw i)) as (s & Hs & Hwfs & Hns & Hnms & _ & Hbs).
    { rewrite Hkeys. apply Hwf. }
    { rewrite Hkeys. apply Hwf. }
    rewrite Hnew in Hs. injection Hs as <-.
    split; [done|]. split; [done|]. split; [exact (Hkeys i)|].
    intros name a Hin Ha. apply Hbs. unfold kw. apply list_elem_of_fmap.
    exists name. split; [|done]. rewrite (Harr name Hin) in Ha. by injection Ha as ->.
Qed.

Lemma stack_batched schema states name :
  Forall (λ a, np.shape a = schema name ∧ np.wf a) (BaseStates.column states name) →
  np.wf (np.stack (schema name) (BaseStates.column states name)) ∧
  head (np.shape (np.stack (schema name) (BaseStates.column states name)))
  = Some (length (BaseStates.column states name)).
Proof.
  intros Hcol. split; [|done]. unfold np.wf, np.stack. cbn.
  by rewrite (length_concat_data (schema name)).
Qed.

Lemma row_of_stack sh (arrays : list (np.ndarray T)) i a :
  Forall (λ a, np.shape a = sh ∧ np.wf a) arrays → arrays !! i = Some a →
  np.row (np.stack sh arrays) i = a.
Proof.
  intros Hall Hi. unfold np.stack.
  rewrite (row_of_stacked sh _ _ i (np.data a)).
  - eapply Forall_lookup_1 in Hall as [Hsh _]; [|done]. destruct a. cbn in *. by subst.
  - apply Forall_fmap. eapply Forall_impl; [done|]. intros a' [<- Hwf]. exact Hwf.
  - by rewrite list_lookup_fmap, Hi.
Qed.

(** Splitting what [concat_states] made of containers of one walker gives
    back the arrays of every container, in the order of the input. *)
Lemma split_concat_states names schema s0 rest :
  BaseStates._names s0 = names →
  Forall (BaseStates.single_walker names schema) (s0 :: rest) →
  (∀ name, name ∈ names → schema name ≠ []) →
  ∃ joined parts,
    BaseStates.concat_states (s0 :: rest) = Ok joined ∧
    BaseStates.list_ joined (BaseStates.split_states joined)
    = (Ok (BaseStates.VStates <$> parts), BaseStates.GenSplitStates BaseStates.PcDone) ∧
    length parts = length (s0 :: rest) ∧
    ∀ i s part, (s0 :: rest) !! i = Some s → parts !! i = Some part →
      BaseStates.n part = 1%Z ∧ BaseStates._names part = names ∧
      ∀ name, name ∈ names →
        BaseStates.attrs part !! name = BaseStates.attrs s !! name.
Proof.
  intros Hnames Hall Hschema.
  destruct (concat_states_stack names schema s0 rest Hnames Hall Hschema)
    as (joined & Hjoined & Hwf & Hn & Hjn & Hattrs).
  assert (BaseStates.batched (length (s0 :: rest)) joined) as Hb.
  { split; [done|]. intros name a Hin Ha. rewrite Hjn in Hin.
    rewrite (Hattrs name Hin) in Ha. injection Ha as <-.
    destruct (column_single_walkers _ _ _ name Hin Hall) as (Hlen & Hcol & _).
    rewrite <- Hlen. exact (stack_batched schema (s0 :: rest) name Hcol). }
  destruct (split_states_batched joined _ Hwf Hb) as (parts & Hsplit & Hlen & Hparts).
  { cbn. lia. }
  exists joined, parts. do 3 (split; [done|]).
  intros i s part Hs Hp. destruct (Hparts i part Hp) as (_ & Hpn & Hpnames & Hprow).
  split; [done|]. split; [congruence|]. intros name Hin.
  rewrite (Hprow name _ ltac:(by rewrite Hjn) (Hattrs name Hin)).
  destruct (column_single_walkers _ _ _ name Hin Hall) as (_ & Hcol & Hlook & _).
  rewrite <- (Hlook i s Hs).
  destruct (BaseStates.column (s0 :: rest) name !! i) as [a|] eqn:Ha.
  - f_equal. by eapply row_of_stack.
  - apply lookup_ge_None in Ha. apply lookup_lt_Some in Hs.
    destruct (column_single_walkers _ _ _ name Hin Hall) as (Hcl & _). lia.
Qed.

(** C2: for every non-empty list of containers of one walker that bind
    the same names to arrays of the same shapes with leading dimension
    one, [concat_states] succeeds, [split_states] of the result yields as
    many containers as were given, and the [i]-th of them has one walker,
    the names of the input and, under every name, the array of the [i]-th
    input. *)
Theorem split_states_inverts_concat_states names schema s0 rest :
  BaseStates._names s0 = names →
  Forall (BaseStates.single_walker names schema) (s0 :: rest) →
  (∀ name, name ∈ names → head (schema name) = Some 1) →
  ∃ joined parts,
    BaseStates.concat_states (s0 :: rest) = Ok joined ∧
    BaseStates.list_ joined (BaseStates.split_states joined)
    = (Ok (BaseStates.VStates <$> parts), BaseStates.GenSplitStates BaseStates.PcDone) ∧
    length parts = length (s0 :: rest) ∧
    ∀ i s part, (s0 :: rest) !! i = Some s → parts !! i = Some part →
      BaseStates.n part = 1%Z ∧ BaseStates._names part = names ∧
      ∀ name, name ∈ names →
        BaseStates.attrs part !! name = BaseStates.attrs s !! name.
Proof.
  intros Hnames Hall Hlead. apply (split_concat_states names schema); [done..|].
  intros name Hin Hnil. specialize (Hlead name Hin). by rewrite Hnil in Hlead.
Qed.

(** C5 (as the code has it): for every non-empty list of containers of
    one walker that bind the same names to arrays of the same shapes, of
    one dimension at least, [concat_states] returns a container whose
    number of walkers is the sum of the inputs', that is their number,
    whose names are those of the first input, and whose array for a name
    holds the arrays of all inputs in input order, in the shape of their
    number followed by the shape of the first input's array. *)
Theorem concat_states_of_single_walkers names schema s0 rest :
  BaseStates._names s0 = names →
  Forall (BaseStates.single_walker names schema) (s0 :: rest) →
  (∀ name, name ∈ names → schema name ≠ []) →
  ∃ joined,
    BaseStates.concat_states (s0 :: rest) = Ok joined ∧
    BaseStates.n joined = sum (BaseStates.n <$> s0 :: rest) ∧
    BaseStates.n joined = Z.of_nat (length (s0 :: rest)) ∧
    BaseStates._names joined = BaseStates._names s0 ∧
    ∀ name, name ∈ names →
      length (BaseStates.column (s0 :: rest) name) = length (s0 :: rest) ∧
      (∀ i s, (s0 :: rest) !! i = Some s →
         BaseStates.column (s0 :: rest) name !! i = BaseStates.attrs s !! name) ∧
      BaseStates.attrs joined !! name
      = Some (np.array (length (s0 :: rest) :: schema name)
                       (concat (np.data <$> BaseStates.column (s0 :: rest) name))).
Proof.
  intros Hnames Hall Hschema.
  destruct (concat_states_stack names schema s0 rest Hnames Hall Hschema)
    as (joined & Hjoined & Hwf & Hn & Hjn & Hattrs).
  exists joined. split; [done|]. split.
  { by rewrite (sum_single_walkers names schema). }
  split; [done|]. split; [congruence|]. intros name Hin.
  destruct (column_single_walkers _ _ _ name Hin Hall) as (Hlen & _ & Hlook & _).
  split; [done|]. split; [done|].
  rewrite (Hattrs name Hin). unfold np.stack. by rewrite Hlen.
Qed.

End split.

(** ** The claims on walkers at concrete containers *)

Section walker_instances.
Local Open Scope string_scope.

Lemma one_walker_single x y r :
  BaseStates.single_walker Examples.one_walker_names Examples.one_walker_schema
    (Examples.one_walker x y r).
Proof.
  split; [apply one_walker_wf|]. split; [done|].
  intros name Hin.
  repeat (apply elem_of_cons in Hin as [->|Hin]; [by eexists|]).
  by apply elem_of_nil in Hin.
Qed.

Lemma two_walkers_batched : BaseStates.batched 2 Examples.two_walkers.
Proof.
  split; [done|]. intros name a Hin Ha.
  apply list_elem_of_singleton in Hin as ->. by injection Ha as <-.
Qed.

(** C8 at one walker: [itervals] yields nothing, where [vals] yields the
    two arrays whole and [iteritems] yields the names with the row of the
    walker. *)
Theorem itervals_of_one_walker_yields_nothing :
  let self := Examples.one_walker 1 2 3 in
  BaseStates.n self = 1%Z ∧
  BaseStates.list_ self (BaseStates.itervals self)
  = (Ok [], BaseStates.GenItervals BaseStates.PcDone) ∧
  BaseStates.list_ self (BaseStates.vals self)
  = (Ok [BaseStates.VArray (np.array [1; 2] [1; 2]%Z);
         BaseStates.VArray (np.array [1] [3]%Z)],
     BaseStates.GenVals []) ∧
  BaseStates.list_ self (BaseStates.iteritems self)
  = (Ok [BaseStates.VTuple
           [BaseStates.VTuple [BaseStates.VStr "observs"; BaseStates.VStr "rewards"];
            BaseStates.VTuple [BaseStates.VArray (np.array [2] [1; 2]%Z);
                               BaseStates.VArray (np.array [] [3]%Z)]]],
     BaseStates.GenIteritems BaseStates.PcDone).
Proof. cbn zeta. repeat split; by vm_compute. Qed.

(** Two containers of two walkers each are not concatenated. *)
Lemma concat_states_rejects_two_walkers :
  BaseStates.wf Examples.two_walkers ∧
  BaseStates.batched 2 Examples.two_walkers ∧
  BaseStates.concat_states [Examples.two_walkers; Examples.two_walkers]
  = Raise ValueError.
Proof.
  split; [apply two_walkers_wf|]. split; [apply two_walkers_batched|].
  by vm_compute.
Qed.

Lemma concat_states_of_single_walkers_witness :
  let s0 := Examples.one_walker 1 2 3 in
  let s1 := Examples.one_walker 4 5 6 in
  (BaseStates._names s0 = Examples.one_walker_names ∧
   Forall (BaseStates.single_walker Examples.one_walker_names
             Examples.one_walker_schema) [s0; s1] ∧
   ∀ name, name ∈ Examples.one_walker_names → Examples.one_walker_schema name ≠ []) ∧
  ∃ joined,
    BaseStates.concat_states [s0; s1] = Ok joined ∧
    BaseStates.n joined = 2%Z ∧
    BaseStates._names joined = BaseStates._names s0.
Proof.
  cbn zeta.
  assert (Forall (BaseStates.single_walker Examples.one_walker_names
                    Examples.one_walker_schema)
            [Examples.one_walker 1 2 3; Examples.one_walker 4 5 6]) as Hall.
  { repeat (constructor; [apply one_walker_single|]). constructor. }
  assert (∀ name, name ∈ Examples.one_walker_names →
                  Examples.one_walker_schema name ≠ []) as Hsch.
  { intros name Hin. unfold Examples.one_walker_schema. by destruct (decide _). }
  split; [by split|].
  destruct (concat_states_of_single_walkers Examples.one_walker_names
              Examples.one_walker_schema (Examples.one_walker 1 2 3)
              [Examples.one_walker 4 5 6] eq_refl Hall Hsch)
    as (joined & Hj & _ & Hn & Hnames & _).
  exists joined. split; [exact Hj|]. split; [exact Hn|exact Hnames].
Defined.

Lemma split_states_inverts_concat_states_witness :
  let s0 := Examples.one_walker 1 2 3 in
  let s1 := Examples.one_walker 4 5 6 in
  (BaseStates._names s0 = Examples.one_walker_names ∧
   Forall (BaseStates.single_walker Examples.one_walker_names
             Examples.one_walker_schema) [s0; s1] ∧
   ∀ name, name ∈ Examples.one_walker_names →
           head (Examples.one_walker_schema name) = Some 1) ∧
  ∃ joined parts,
    BaseStates.concat_states [s0; s1] = Ok joined ∧
    BaseStates.list_ joined (BaseStates.split_states joined)
    = (Ok (BaseStates.VStates <$> parts), BaseStates.GenSplitStates BaseStates.PcDone) ∧
    length parts = 2 ∧
    ∀ i s part, [s0; s1] !! i = Some s → parts !! i = Some part →
      BaseStates.n part = 1%Z ∧
      BaseStates._names part = Examples.one_walker_names ∧
      ∀ name, name ∈ Examples.one_walker_names →
        BaseStates.attrs part !! name = BaseStates.attrs s !! name.
Proof.
  cbn zeta.
  assert (Forall (BaseStates.single_walker Examples.one_walker_names
                    Examples.one_walker_schema)
            [Examples.one_walker 1 2 3; Examples.one_walker 4 5 6]) as Hall.
  { repeat (constructor; [apply one_walker_single|]). constructor. }
  assert (∀ name, name ∈ Examples.one_walker_names →
                  head (Examples.one_walker_schema name) = Some 1) as Hsch.
  { intros name Hin. unfold Examples.one_walker_schema. by destruct (decide _). }
  split; [by split|].
  exact (split_states_inverts_concat_states Examples.one_walker_names
           Examples.one_walker_schema (Examples.one_walker 1 2 3)
           [Examples.one_walker 4 5 6] eq_refl Hall Hsch).
Defined.

End walker_instances.

(** ** Cloning *)

Section clone.
Context {T : Type}.
Implicit Types (self s : BaseStates.t T) (a row : np.ndarray T).
Implicit Types (will_clone : list bool) (compas_ix : list nat).
Local Arguments BaseStates.__getitem__ : simpl never.

Lemma set_row_shape a i row : np.shape (States.set_row a i row) = np.shape a.
Proof. done. Qed.

Lemma set_row_wf a d i row :
  np.wf a → head (np.shape a) = Some d → i < d →
  length (np.data row) = np.size_of (tail (np.shape a)) →
  np.wf (States.set_row a i row).
Proof.
  unfold np.wf, States.set_row. destruct a as [[|d' rest] l]; [done|].
  cbn. intros Hl [= ->] Hi Hrow.
  rewrite !length_app, length_take, length_drop, Hrow, Hl. nia.
Qed.

Lemma row_set_row_eq a d i row :
  np.wf a → head (np.shape a) = Some d → i < d →
  length (np.data row) = np.size_of (tail (np.shape a)) →
  np.row (States.set_row a i row) i = np.array (tail (np.shape a)) (np.data row).
Proof.
  unfold np.wf, States.set_row, np.row. destruct a as [[|d' rest] l]; [done|].
  cbn. intros Hl [= ->] Hi Hrow. f_equal.
  rewrite drop_app_length'.
  - by rewrite take_app_length'.
  - rewrite length_take. nia.
Qed.

Lemma take_drop_app_l (l1 l2 : list T) n k :
  n + k ≤ length l1 → take k (drop n (l1 ++ l2)) = take k (drop n l1).
Proof.
  intros Hle. rewrite drop_app_le by lia.
  apply take_app_le. rewrite length_drop. lia.
Qed.

Lemma row_set_row_ne a d i j row :
  np.wf a → head (np.shape a) = Some d → i < d → j < d → i ≠ j →
  length (np.data row) = np.size_of (tail (np.shape a)) →
  np.row (States.set_row a i row) j = np.row a j.
Proof.
  unfold np.wf, States.set_row, np.row. destruct a as [[|d' rest] l]; [done|].
  cbn [np.shape np.data tail head np.size_of foldr].
  fold (np.size_of rest). set (k := np.size_of rest).
  intros Hl [= ->] Hi Hj Hne Hrow. f_equal.
  destruct (decide (j < i)) as [Hlt|Hge].
  - rewrite take_drop_app_l by (rewrite length_take; nia).
    rewrite <- (take_drop (i * k) l) at 2.
    rewrite take_drop_app_l by (rewrite length_take; nia). done.
  - rewrite app_assoc.
    rewrite drop_app_ge by (rewrite length_app, length_take; nia).
    rewrite length_app, length_take, drop_drop. do 2 f_equal. nia.
Qed.

(** The loop of [clone_array] from index [k] on: the rows before [k] have
    their final value, the others are as in the snapshot. *)
Lemma clone_array_loop will_clone compas_ix a d m k acc :
  np.wf a → head (np.shape a) = Some d →
  k + m = length will_clone → length will_clone = d → length compas_ix = d →
  Forall (λ c, c < d) compas_ix →
  np.wf acc → np.shape acc = np.shape a →
  (∀ j, j < d → np.row acc j = np.row a (if decide (j < k) then States.source will_clone compas_ix j else j)) →
  ∃ a',
    for_each (λ acc i,
        match will_clone !! i, compas_ix !! i with
        | Some true, Some c => row ← np.getitem a c; Ok (States.set_row acc i row)
        | Some true, None => Raise IndexError
        | _, _ => Ok acc
        end) (seq k m) acc = Ok a' ∧
    np.wf a' ∧ np.shape a' = np.shape a ∧
    ∀ j, j < d → np.row a' j = np.row a (States.source will_clone compas_ix j).
Proof.
  intros Hwf Hd. revert k acc. induction m as [|m IH];
    intros k acc Hkm Hwc Hci Hc Hwacc Hsacc Hacc.
  - exists acc. split; [done|]. split; [done|]. split; [done|].
    intros j Hj. rewrite Hacc by done. rewrite decide_True by lia. done.
  - cbn [seq for_each].
    assert (k < d) as Hk by lia.
    assert (∀ acc', np.wf acc' → np.shape acc' = np.shape a →
      (∀ j, j < d → np.row acc' j = np.row a (if decide (j < S k) then States.source will_clone compas_ix j else j)) →
      ∃ a', for_each (λ acc i,
        match will_clone !! i, compas_ix !! i with
        | Some true, Some c => row ← np.getitem a c; Ok (States.set_row acc i row)
        | Some true, None => Raise IndexError
        | _, _ => Ok acc
        end) (seq (S k) m) acc' = Ok a' ∧
        np.wf a' ∧ np.shape a' = np.shape a ∧
        ∀ j, j < d → np.row a' j = np.row a (States.source will_clone compas_ix j)) as Hnext.
    { intros acc' ???. apply IH; [lia|done..]. }
    destruct (lookup_lt_is_Some_2 will_clone k) as [b Hb]; [lia|].
    destruct (lookup_lt_is_Some_2 compas_ix k) as [c Hcl]; [lia|].
    assert (c < d) as Hcd by (eapply Forall_lookup_1 in Hc; done).
    rewrite Hb, Hcl. destruct b.
    + rewrite (getitem_row a d c) by done. cbn [mbind result_bind].
      assert (length (np.data (np.row a c)) = np.size_of (tail (np.shape acc))) as Hrl.
      { rewrite Hsacc. unfold np.row. cbn. destruct a as [[|d' rest] l]; [done|].
        cbn in *. injection Hd as ->. unfold np.wf in Hwf. cbn in Hwf.
        fold (np.size_of rest) in *.
        rewrite length_take, length_drop. nia. }
      apply Hnext.
      * eapply set_row_wf; [done|by rewrite Hsacc|done|done].
      * by rewrite set_row_shape.
      * intros j Hj. destruct (decide (j = k)) as [->|Hne].
        -- rewrite (row_set_row_eq acc d) by (try done; by rewrite Hsacc).
           rewrite decide_True by lia. unfold States.source. rewrite Hb, Hcl.
           unfold np.row at 2. by rewrite Hsacc.
        -- rewrite (row_set_row_ne acc d) by (try done; by rewrite Hsacc).
           rewrite Hacc by done. 
           destruct (decide (j < k)), (decide (j < S k)); try done; lia.
    + apply Hnext; [done..|].
      intros j Hj. rewrite Hacc by done.
      destruct (decide (j = k)) as [->|Hne].
      * rewrite decide_False, decide_True by lia. unfold States.source. by rewrite Hb.
      * destruct (decide (j < k)), (decide (j < S k)); try done; lia.
Qed.

Lemma clone_array_rows will_clone compas_ix a d :
  np.wf a → head (np.shape a) = Some d →
  length will_clone = d → length compas_ix = d → Forall (λ c, c < d) compas_ix →
  ∃ a',
    States.clone_array will_clone compas_ix a = Ok a' ∧
    np.wf a' ∧ np.shape a' = np.shape a ∧
    ∀ j, j < d → np.row a' j = np.row a (States.source will_clone compas_ix j).
Proof.
  intros Hwf Hd Hwc Hci Hc. unfold States.clone_array.
  eapply (clone_array_loop will_clone compas_ix a d); done.
Qed.

Lemma walker_row_lookup self N (arr : string → np.ndarray T) i :
  (∀ name, name ∈ BaseStates._names self →
     BaseStates.attr_name_ok name ∧
     BaseStates.attrs self !! name = Some (arr name) ∧
     head (np.shape (arr name)) = Some N) →
  i < N →
  BaseStates.walker_row self i
  = Ok ((λ name, np.row (arr name) i) <$> BaseStates._names self).
Proof.
  intros Harr Hi. unfold BaseStates.walker_row. apply traverse_ok.
  intros name Hin. destruct (Harr name Hin) as (Hok & Ha & Hhd).
  rewrite (getitem_array self name (arr name)) by done. cbn.
  by eapply getitem_row.
Qed.

Lemma foldl_insert_lookup {V} (g : string → V) (names : list string)
    (d : gmap string V) name :
  foldl (λ d name, <[name := g name]> d) d names !! name
  = if decide (name ∈ names) then Some (g name) else d !! name.
Proof.
  revert d. induction names as [|x names IH]; intros d; cbn.
  - rewrite decide_False; [done|]. apply not_elem_of_nil.
  - rewrite IH. destruct (decide (name ∈ names)) as [Hin|Hnin].
    + rewrite decide_True; [done|]. by right.
    + destruct (decide (name = x)) as [->|Hne].
      * rewrite decide_True by left. apply lookup_insert_eq.
      * rewrite decide_False by (intros [?|?]%elem_of_cons; done).
        by rewrite lookup_insert_ne.
Qed.

(** C1: on a well-formed container of [N] walkers, with [N] flags and
    [N] companions within the batch, [clone] succeeds and keeps the names
    and the number of walkers; afterwards the attributes of a walker that
    clones are those that its companion had before the call, all of them,
    and the attributes of a walker that does not clone are as before. *)
Theorem clone_copies_companions self N will_clone compas_ix :
  BaseStates.wf self → BaseStates.batched N self →
  length will_clone = N → length compas_ix = N → Forall (λ c, c < N) compas_ix →
  ∃ self',
    States.clone self will_clone compas_ix = (Ok (), self') ∧
    BaseStates._names self' = BaseStates._names self ∧
    BaseStates.n self' = BaseStates.n self ∧
    (∀ i, i < N → is_ok (BaseStates.walker_row self i) = true) ∧
    (∀ i c, will_clone !! i = Some true → compas_ix !! i = Some c →
       BaseStates.walker_row self' i = BaseStates.walker_row self c) ∧
    (∀ i, will_clone !! i = Some false →
       BaseStates.walker_row self' i = BaseStates.walker_row self i).
Proof.
  intros Hwf Hb Hwc Hci Hc.
  destruct (wf_getitem_total self Hwf) as [arr Harr].
  assert (∀ name, name ∈ BaseStates._names self →
    BaseStates.attr_name_ok name ∧
    BaseStates.attrs self !! name = Some (arr name) ∧
    np.wf (arr name) ∧ head (np.shape (arr name)) = Some N) as Hself.
  { intros name Hin. destruct (Harr name Hin) as [Ha _].
    destruct Hb as [_ Hb]. destruct (Hb name _ Hin Ha).
    split; [|done]. eapply Forall_forall; [apply Hwf|done]. }
  set (cloned := λ name,
         match States.clone_array will_clone compas_ix (arr name) with
         | Ok a' => a'
         | Raise _ => arr name
         end).
  assert (∀ name, name ∈ BaseStates._names self →
    States.clone_array will_clone compas_ix (arr name) = Ok (cloned name) ∧
    np.shape (cloned name) = np.shape (arr name) ∧
    ∀ j, j < N → np.row (cloned name) j
                 = np.row (arr name) (States.source will_clone compas_ix j)) as Hcl.
  { intros name Hin. destruct (Hself name Hin) as (_ & _ & Hwfa & Hhd).
    destruct (clone_array_rows will_clone compas_ix (arr name) N)
      as (a' & Ha' & _ & Hsh & Hrows); [done..|].
    unfold cloned. by rewrite Ha'. }
  set (d' := foldl (λ d name, <[name := cloned name]> d) (BaseStates.attrs self)
                   (BaseStates._names self)).
  exists {| BaseStates._names := BaseStates._names self;
            BaseStates._attr_dict := BaseStates._attr_dict self;
            BaseStates.attrs := d';
            BaseStates._n_walkers := BaseStates._n_walkers self |}.
  assert (∀ i, i < N →
    BaseStates.walker_row self i
    = Ok ((λ name, np.row (arr name) i) <$> BaseStates._names self)) as Hrow.
  { intros i Hi. apply (walker_row_lookup self N); [|done].
    intros name Hin. destruct (Hself name Hin) as (? & ? & ? & ?). done. }
  assert (∀ i, i < N →
    BaseStates.walker_row
      {| BaseStates._names := BaseStates._names self;
         BaseStates._attr_dict := BaseStates._attr_dict self;
         BaseStates.attrs := d';
         BaseStates._n_walkers := BaseStates._n_walkers self |} i
    = BaseStates.walker_row self (States.source will_clone compas_ix i)) as Hrow'.
  { intros i Hi.
    assert (States.source will_clone compas_ix i < N) as Hsrc.
    { unfold States.source. destruct (will_clone !! i) as [[]|]; [|done..].
      destruct (compas_ix !! i) as [c|] eqn:Hci'; [|done].
      eapply Forall_lookup_1 in Hc; done. }
    rewrite (Hrow _ Hsrc).
    rewrite (walker_row_lookup _ N cloned); cbn [BaseStates._names].
    - f_equal. apply list_fmap_ext. intros k name Hk. apply Hcl; [|done].
      by eapply list_elem_of_lookup_2.
    - intros name Hin. destruct (Hself name Hin) as (? & _ & _ & Hhd).
      split; [done|]. cbn [BaseStates.attrs]. unfold d'.
      rewrite foldl_insert_lookup, decide_True by done. split; [done|].
      destruct (Hcl name Hin) as (_ & -> & _). done.
    - done. }
  split; [|split; [done|split; [done|split; [|split]]]].
  - unfold States.clone. rewrite decide_True.
    2:{ split; [|lia]. destruct Hb as [-> _]. by rewrite Hwc. }
    rewrite (for_each_ok _ (λ d name, <[name := cloned name]> d)); [done|].
    intros d name Hin. destruct (Hself name Hin) as (_ & -> & _).
    destruct (Hcl name Hin) as (-> & _). done.
  - intros i Hi. by rewrite Hrow.
  - intros i c Hwi Hcc. rewrite Hrow' by (apply lookup_lt_Some in Hwi; lia).
    unfold States.source. by rewrite Hwi, Hcc.
  - intros i Hwi. rewrite Hrow' by (apply lookup_lt_Some in Hwi; lia).
    unfold States.source. by rewrite Hwi.
Qed.

End clone.

(** ** Cloning at a concrete container *)

Section clone_instances.
Local Open Scope string_scope.

Lemma three_walkers_batched : BaseStates.batched 3 Examples.three_walkers.
Proof.
  split; [done|]. intros name a Hin Ha.
  repeat (apply elem_of_cons in Hin as [->|Hin]; [by injection Ha as <-|]).
  by apply elem_of_nil in Hin.
Qed.

(** Walker 0 takes the row of walker 2 and walker 1 the row that walker 0
    had before the call. *)
Example clone_three_walkers :
  let self' := (States.clone Examples.three_walkers [true; true; false] [2; 0; 0]).2 in
  BaseStates.attrs self' !! "observs" = Some (np.array [3; 2] [5; 6; 1; 2; 5; 6]%Z) ∧
  BaseStates.attrs self' !! "rewards" = Some (np.array [3] [9; 7; 9]%Z).
Proof. cbn zeta. split; by vm_compute. Qed.

Lemma clone_copies_companions_witness :
  let self := Examples.three_walkers in
  let will_clone := [true; true; false] in
  let compas_ix := [2; 0; 0] in
  (BaseStates.wf self ∧ BaseStates.batched 3 self ∧
   length will_clone = 3 ∧ length compas_ix = 3 ∧ Forall (λ c, c < 3) compas_ix) ∧
  ∃ self',
    States.clone self will_clone compas_ix = (Ok (), self') ∧
    BaseStates._names self' = BaseStates._names self ∧
    BaseStates.n self' = BaseStates.n self ∧
    (∀ i, i < 3 → is_ok (BaseStates.walker_row self i) = true) ∧
    (∀ i c, will_clone !! i = Some true → compas_ix !! i = Some c →
       BaseStates.walker_row self' i = BaseStates.walker_row self c) ∧
    (∀ i, will_clone !! i = Some false →
       BaseStates.walker_row self' i = BaseStates.walker_row self i).
Proof.
  cbn zeta.
  assert (Forall (λ c, c < 3) [2; 0; 0]) as Hc by (repeat constructor; lia).
  split; [by split; [apply three_walkers_wf|split; [apply three_walkers_batched|]]|].
  exact (clone_copies_companions Examples.three_walkers 3 [true; true; false]
           [2; 0; 0] three_walkers_wf three_walkers_batched eq_refl eq_refl Hc).
Defined.

End clone_instances.

(** ** Iteration by walker on well-formed containers *)

Section walker_iteration.
Context {T : Type}.
Implicit Types (self : BaseStates.t T).

(** X11: [itervals] on a well-formed container of two walkers or more
    yields one tuple per walker: row [i] of every array, in the order of
    the names. *)
Lemma itervals_batched self N :
  BaseStates.wf self → BaseStates.batched N self → 2 ≤ N →
  ∃ arr : string → np.ndarray T,
    (∀ name, name ∈ BaseStates._names self →
       BaseStates.attrs self !! name = Some (arr name)) ∧
    BaseStates.list_ self (BaseStates.itervals self)
    = (Ok ((λ i, BaseStates.VTuple
                   ((λ name, BaseStates.VArray (np.row (arr name) i))
                      <$> BaseStates._names self)) <$> seq 0 N),
       BaseStates.GenItervals BaseStates.PcDone).
Proof.
  intros Hwf Hb HN.
  destruct (walker_row_batched self N Hwf Hb) as (arr & Harr & Hrows).
  exists arr. split; [done|].
  rewrite (itervals_rows self N
             (λ i, (λ name, np.row (arr name) i) <$> BaseStates._names self));
    [|apply Hb|done|done].
  do 2 f_equal. apply list_fmap_ext. intros _ i _. f_equal.
  by rewrite <- list_fmap_compose.
Qed.

(** X12: [iteritems] on a well-formed container of one walker or more
    yields one pair per walker: the names, and row [i] of every array in
    the order of the names. *)
Lemma iteritems_batched self N :
  BaseStates.wf self → BaseStates.batched N self → 1 ≤ N →
  ∃ arr : string → np.ndarray T,
    (∀ name, name ∈ BaseStates._names self →
       BaseStates.attrs self !! name = Some (arr name)) ∧
    BaseStates.list_ self (BaseStates.iteritems self)
    = (Ok ((λ i, BaseStates.VTuple
                   [BaseStates.VTuple (BaseStates.VStr <$> BaseStates._names self);
                    BaseStates.VTuple
                      ((λ name, BaseStates.VArray (np.row (arr name) i))
                         <$> BaseStates._names self)]) <$> seq 0 N),
       BaseStates.GenIteritems BaseStates.PcDone).
Proof.
  intros Hwf Hb HN.
  destruct (walker_row_batched self N Hwf Hb) as (arr & Harr & Hrows).
  exists arr. split; [done|].
  rewrite (iteritems_rows self N
             (λ i, (λ name, np.row (arr name) i) <$> BaseStates._names self));
    [|apply Hb|done|done].
  do 2 f_equal. apply list_fmap_ext. intros _ i _. do 3 f_equal.
  by rewrite <- list_fmap_compose.
Qed.

End walker_iteration.


(** ** Generators after their end *)

Section finished_generators.
Context {T : Type}.
Implicit Types (self : BaseStates.t T) (g : BaseStates.generator).
Local Arguments BaseStates.__getitem__ : simpl never.
Local Arguments BaseStates.new : simpl never.
Local Arguments BaseStates.loop_next : simpl never.

Lemma finished_next self g :
  BaseStates.finished g = true → BaseStates.next self g = (Ok None, g).
Proof.
  destruct g as [[|??]|[|??]|[|??]|[]|[]|[]]; by cbn.
Qed.

Lemma itervals_next_stops self pc r pc' :
  BaseStates.itervals_next self pc = (r, pc') →
  (∀ row, r ≠ Ok (Some row)) → pc' = BaseStates.PcDone.
Proof.
  destruct pc as [|i stop|]; cbn.
  - destruct (decide _); [by intros [= <- <-]|]. apply loop_next_stops.
  - apply loop_next_stops.
  - by intros [= <- <-].
Qed.

Lemma iteritems_next_stops self pc r pc' :
  BaseStates.iteritems_next self pc = (r, pc') →
  (∀ kv, r ≠ Ok (Some kv)) → pc' = BaseStates.PcDone.
Proof.
  assert (∀ i stop,
    (let '(r0, pc0) := BaseStates.loop_next self i stop in
     match r0 with
     | Ok (Some row) => (Ok (Some (BaseStates._names self, row)), pc0)
     | Ok None => (Ok None, pc0)
     | Raise e => (Raise e, pc0)
     end) = (r, pc') →
    (∀ kv, r ≠ Ok (Some kv)) → pc' = BaseStates.PcDone) as Hloop.
  { intros i stop.
    destruct (BaseStates.loop_next self i stop) as [[[row|]|e] pc0] eqn:E;
      intros [= <- <-] Hr.
    - by edestruct Hr.
    - by eapply loop_next_stops.
    - by eapply loop_next_stops. }
  destruct pc as [|i stop|]; cbn.
  - destruct (decide _); [by intros [= <- <-]|].
    specialize (Hloop 0 (Z.to_nat (BaseStates.n self))).
    by destruct (BaseStates.loop_next self 0 _) as [[[?|]|?] ?].
  - specialize (Hloop i stop).
    by destruct (BaseStates.loop_next self i stop) as [[[?|]|?] ?].
  - by intros [= <- <-].
Qed.

(** A generator that stopped or raised is finished. *)
Lemma next_finishes self g r g' :
  BaseStates.next self g = (r, g') → (∀ v, r ≠ Ok (Some v)) →
  BaseStates.finished g' = true.
Proof.
  destruct g as [it|it|it|pc|pc|pc]; cbn.
  - destruct it; intros [= <- <-] Hr; [done|]. by edestruct Hr.
  - destruct it; [by intros [= <- <-]|].
    destruct (BaseStates.__getitem__ self _) as [v|e]; intros [= <- <-] Hr; [|done].
    by edestruct Hr.
  - destruct it; [by intros [= <- <-]|].
    destruct (BaseStates.__getitem__ self _) as [v|e]; intros [= <- <-] Hr; [|done].
    by edestruct Hr.
  - destruct (BaseStates.itervals_next self pc) as [r' pc''] eqn:E. intros Hn Hr.
    assert (pc'' = BaseStates.PcDone) as ->.
    { eapply itervals_next_stops; [done|]. intros row ->. injection Hn as <- _.
      by edestruct Hr. }
    destruct r' as [[row|]|e]; by injection Hn as _ <-.
  - destruct (BaseStates.iteritems_next self pc) as [r' pc''] eqn:E. intros Hn Hr.
    assert (pc'' = BaseStates.PcDone) as ->.
    { eapply iteritems_next_stops; [done|]. intros [k v] ->. injection Hn as <- _.
      by edestruct Hr. }
    destruct r' as [[[k v]|]|e]; by injection Hn as _ <-.
  - unfold BaseStates.split_states_next.
    destruct (BaseStates.iteritems_next self pc) as [r' pc''] eqn:E. intros Hn Hr.
    destruct r' as [[[k v]|]|e].
    + destruct (BaseStates.new 1 _); injection Hn as <- <-; [|done]. by edestruct Hr.
    + injection Hn as _ <-.
      by rewrite (iteritems_next_stops _ _ _ _ E) by done.
    + injection Hn as _ <-.
      by rewrite (iteritems_next_stops _ _ _ _ E) by done.
Qed.

(** X8: whatever [list] is applied to, one of the six generators of a
    container in any state of its traversal, it leaves the generator
    finished: from then on [next] gives [StopIteration] and [list] gives
    the empty list, also when the container has changed in between. *)
Theorem exhausted_generator_stays_exhausted self g r g' :
  BaseStates.list_ self g = (r, g') →
  BaseStates.finished g' = true ∧
  ∀ self' : BaseStates.t T,
    BaseStates.next self' g' = (Ok None, g') ∧
    BaseStates.list_ self' g' = (Ok [], g').
Proof.
  intros Hlist.
  assert (BaseStates.finished g' = true) as Hfin.
  { revert Hlist. unfold BaseStates.list_.
    remember (BaseStates.pending self g) as p eqn:Hp.
    revert g r Hp. induction (lt_wf p) as [p _ IH]. intros g r ->. cbn.
    destruct (BaseStates.next self g) as [[[v|]|e] g1] eqn:E.
    - pose proof (next_pending _ _ _ _ E) as Hdec.
      rewrite collect_enough by lia. unfold BaseStates.list_.
      destruct (BaseStates.collect _ self g1) as [[vs|e] g2] eqn:E2;
        intros [= _ <-]; by eapply (IH _ Hdec g1).
    - intros [= _ <-]. by eapply next_finishes.
    - intros [= _ <-]. by eapply next_finishes. }
  split; [done|]. intros self'. split; [by apply finished_next|].
  unfold BaseStates.list_. cbn. by rewrite finished_next.
Qed.

End finished_generators.


(** ** [itervals] against [iteritems] *)

Section itervals_iteritems.
Context {T : Type}.
Implicit Types (self : BaseStates.t T) (g : BaseStates.generator).
Local Arguments BaseStates.loop_next : simpl never.

Lemma iteritems_next_itervals_next self pc :
  (2 ≤ BaseStates.n self)%Z →
  BaseStates.iteritems_next self pc
  = match BaseStates.itervals_next self pc with
    | (Ok (Some row), pc') => (Ok (Some (BaseStates._names self, row)), pc')
    | (Ok None, pc') => (Ok None, pc')
    | (Raise e, pc') => (Raise e, pc')
    end.
Proof.
  intros Hn. destruct pc as [|i stop|]; cbn; [|done..].
  by rewrite !decide_False by lia.
Qed.

Lemma collect_itervals_iteritems self fuel pc :
  (2 ≤ BaseStates.n self)%Z →
  (BaseStates.collect fuel self (BaseStates.GenItervals pc)).1
  = fmap (M := result) (fmap (M := list) BaseStates.item_values)
      (BaseStates.collect fuel self (BaseStates.GenIteritems pc)).1.
Proof.
  intros Hn. revert pc. induction fuel as [|fuel IH]; intros pc; [done|].
  cbn [BaseStates.collect BaseStates.next].
  rewrite iteritems_next_itervals_next by done.
  destruct (BaseStates.itervals_next self pc) as [[[row|]|e] pc']; [|done..].
  specialize (IH pc').
  destruct (BaseStates.collect fuel self (BaseStates.GenItervals pc')) as [[vs|e] g1],
    (BaseStates.collect fuel self (BaseStates.GenIteritems pc')) as [[ws|e'] g2];
    cbn in *; congruence.
Qed.

(** X9: on a well-formed container that reports two walkers or more,
    whatever the shapes of its arrays, [itervals] yields the tuples of rows
    that [iteritems] yields beside the names, one for one, and raises what
    [iteritems] raises. *)
Theorem itervals_yields_rows_of_iteritems self :
  BaseStates.wf self → (2 ≤ BaseStates.n self)%Z →
  (BaseStates.list_ self (BaseStates.itervals self)).1
  = fmap (M := result) (fmap (M := list) BaseStates.item_values)
      (BaseStates.list_ self (BaseStates.iteritems self)).1.
Proof. intros _ Hn. by apply collect_itervals_iteritems. Qed.

End itervals_iteritems.


(** ** Loops that raise *)

Section raising_loops.
Context {A B : Type}.

(** A comprehension whose body raises nothing but [e], and raises it for
    one element, raises [e]. *)
Lemma traverse_raise (f : A → result B) (l : list A) e :
  (∀ x e', x ∈ l → f x = Raise e' → e' = e) →
  (∃ x, x ∈ l ∧ f x = Raise e) →
  traverse f l = Raise e.
Proof.
  induction l as [|x l IH]; intros Honly (y & Hy & Hfy).
  - by apply elem_of_nil in Hy.
  - cbn. destruct (f x) as [b|e'] eqn:E.
    + cbn. rewrite IH; [done|..].
      * intros z e'' Hz. apply Honly. by right.
      * apply elem_of_cons in Hy as [->|Hy]; [congruence|eauto].
    + cbn. f_equal. eapply Honly; [left|done].
Qed.

Lemma for_each_raise (f : B → A → result B) (l : list A) (acc : B) e :
  (∀ b x e', x ∈ l → f b x = Raise e' → e' = e) →
  (∃ x, x ∈ l ∧ ∀ b, f b x = Raise e) →
  for_each f l acc = Raise e.
Proof.
  revert acc. induction l as [|x l IH]; intros acc Honly (y & Hy & Hfy).
  - by apply elem_of_nil in Hy.
  - cbn. destruct (f acc x) as [b|e'] eqn:E.
    + cbn. apply IH.
      * intros b' z e'' Hz. apply Honly. by right.
      * apply elem_of_cons in Hy as [->|Hy]; [by rewrite Hfy in E|eauto].
    + cbn. f_equal. eapply Honly; [left|done].
Qed.

End raising_loops.

(** ** Assignment and indexing *)

Section assignment.
Context {T : Type}.
Implicit Types (self : BaseStates.t T) (key name : string).
Local Arguments BaseStates.__getitem__ : simpl never.

(** X4: assigning an item of a well-formed container under a usable key
    succeeds and leaves a well-formed container; indexing with the key
    then returns the array assigned (a list or tuple as a one-dimensional
    array), every other attribute reads as before, and the names and the
    number of walkers are kept.  So an item assigned under a key that is
    not among the names is returned by indexing, while [keys] does not
    list it and [get] still returns the default for it. *)
Theorem setitem_then_getitem self key (val : np.ndarray T + list T) :
  BaseStates.wf self → BaseStates.attr_name_ok key →
  let a := match val with inl a => a | inr l => np.array [length l] l end in
  ∃ self',
    BaseStates.__setitem__ self key val = (Ok (), self') ∧
    BaseStates.__getitem__ self' (BaseStates.IStr key) = Ok (BaseStates.VArray a) ∧
    (∀ other, other ≠ key →
       BaseStates.__getitem__ self' (BaseStates.IStr other)
       = BaseStates.__getitem__ self (BaseStates.IStr other)) ∧
    BaseStates.keys self' = BaseStates.keys self ∧
    BaseStates.n self' = BaseStates.n self ∧
    (key ∉ BaseStates._names self →
     ∀ default, BaseStates.get self' key default = Ok default) ∧
    BaseStates.wf self'.
Proof.
  intros Hwf Hok. cbn zeta.
  apply attr_name_ok_inv in Hok as Hinv. destruct Hinv as [Hn _].
  unfold BaseStates.__setitem__, BaseStates.setattr. rewrite decide_False by done.
  eexists. split; [done|]. split; [|split; [|split; [done|split; [done|split]]]].
  - apply getitem_array; [done|]. cbn. rewrite lookup_insert_eq. by destruct val.
  - intros other Hne. rewrite !getitem_str. unfold BaseStates.getattr. cbn.
    by rewrite lookup_insert_ne.
  - intros Hnot default. unfold BaseStates.get. rewrite in_keys. cbn.
    by rewrite bool_decide_eq_false_2.
  - destruct (setitem_wf self key val Hok Hwf) as (s & Hs & Hwfs & _).
    unfold BaseStates.__setitem__, BaseStates.setattr in Hs.
    rewrite decide_False in Hs by done. by injection Hs as <-.
Qed.

Lemma init_binds_n (d : gmap string (np.ndarray T))
    (kwargs : list (string * np.ndarray T)) :
  "n"%string ∈ kwargs.*1 →
  for_each (λ d kv, BaseStates.setattr d kv.1 kv.2) kwargs d = Raise AttributeError.
Proof.
  intros Hin. apply for_each_raise.
  - intros b [k v] e' _. unfold BaseStates.setattr. cbn.
    destruct (decide _); congruence.
  - apply list_elem_of_fmap in Hin as ([k v] & Hk & Hin). cbn in Hk. subst k.
    exists ("n"%string, v). split; [done|]. intros b. unfold BaseStates.setattr.
    by rewrite decide_True.
Qed.

(** X5: [n] is a property without a setter, so no array can be bound
    under that name: construction with a keyword [n] among otherwise
    usable names raises [AttributeError]; on a well-formed container,
    assigning the item [n] raises it and leaves the container as it was,
    and indexing with [n] returns the number of walkers. *)
Theorem n_cannot_be_bound (batch_size : Z) (kwargs : list (string * np.ndarray T))
    self (val : np.ndarray T + list T) :
  "n"%string ∈ kwargs.*1 →
  Forall (λ key, key = "n"%string ∨ BaseStates.attr_name_ok key) kwargs.*1 →
  BaseStates.wf self →
  BaseStates.__init__ (Schema := Empty_set) batch_size None kwargs
  = Raise AttributeError ∧
  BaseStates.__setitem__ self "n" val = (Raise AttributeError, self) ∧
  BaseStates.__getitem__ self (BaseStates.IStr "n")
  = Ok (BaseStates.VInt (BaseStates.n self)).
Proof.
  intros Hin _ _. split; [|split; [done|by rewrite getitem_str]].
  unfold BaseStates.__init__. cbn. by rewrite init_binds_n.
Qed.

(** X6: indexing a well-formed container with a list of its names returns
    the arrays bound to them, in the order of the list; with the list of
    all names that is what [vals] yields.  Indexing with a list that holds
    a name of no attribute raises [AttributeError]. *)
Theorem getitem_list_of_names self (l : list string) :
  BaseStates.wf self →
  ((∀ name, name ∈ l → name ∈ BaseStates._names self) →
   ∃ arr : string → np.ndarray T,
     (∀ name, name ∈ BaseStates._names self →
        BaseStates.attrs self !! name = Some (arr name)) ∧
     BaseStates.__getitem__ self (BaseStates.IList l)
     = Ok (BaseStates.VList ((λ name, BaseStates.VArray (arr name)) <$> l)) ∧
     (BaseStates.list_ self (BaseStates.vals self)).1
     = Ok ((λ name, BaseStates.VArray (arr name)) <$> BaseStates._names self)) ∧
  ((∃ name, name ∈ l ∧ BaseStates.hasattr self name = false) →
   BaseStates.__getitem__ self (BaseStates.IList l) = Raise AttributeError).
Proof.
  intros Hwf. split.
  - intros Hl. destruct (wf_getitem_total self Hwf) as [arr Harr].
    exists arr. split; [intros name Hin; by apply Harr|]. split.
    + unfold BaseStates.__getitem__.
      rewrite (traverse_ok _ (λ name, BaseStates.VArray (arr name))); [done|].
      intros name Hin. rewrite <- getitem_str. by apply Harr, Hl.
    + unfold BaseStates.list_, BaseStates.vals.
      rewrite (collect_vals self _ (λ name, BaseStates.VArray (arr name)));
        [done|cbn; lia|]. intros name Hin. by apply Harr.
  - intros (name & Hin & Hno). unfold BaseStates.__getitem__.
    rewrite (traverse_raise _ _ AttributeError); [done|..].
    + intros x e' _. apply getattr_raises.
    + exists name. split; [done|]. unfold BaseStates.hasattr in Hno.
      destruct (BaseStates.getattr self name) as [v|e] eqn:E; [done|].
      by apply getattr_raises in E as ->.
Qed.

End assignment.


(** ** Iteration by walker beyond the arrays *)

Section past_leading_dimension.
Context {T : Type}.
Implicit Types (self : BaseStates.t T) (g : BaseStates.generator).
Local Arguments BaseStates.__getitem__ : simpl never.
Local Arguments BaseStates.new : simpl never.
Local Arguments BaseStates.loop_next : simpl never.
Local Arguments BaseStates.walker_row : simpl never.

(** A generator that yields at the indices before [d] and raises at [d] is
    collected into the exception. *)
Lemma collect_loop_raise self (mk : BaseStates.loop_pc → BaseStates.generator)
    (val : nat → BaseStates.value T) stop d e :
  (∀ i, i < d →
     BaseStates.next self (mk (BaseStates.PcLoop i stop))
     = (Ok (Some (val i)), mk (BaseStates.PcLoop (S i) stop))) →
  BaseStates.next self (mk (BaseStates.PcLoop d stop)) = (Raise e, mk BaseStates.PcDone) →
  ∀ k i fuel, i + k = d → k < fuel →
    BaseStates.collect fuel self (mk (BaseStates.PcLoop i stop))
    = (Raise e, mk BaseStates.PcDone).
Proof.
  intros Hstep Hraise k. induction k as [|k IH]; intros i [|fuel] Hik Hf; try lia.
  - cbn. replace i with d by lia. by rewrite Hraise.
  - cbn. rewrite Hstep by lia. rewrite IH by lia. done.
Qed.

Lemma getitem_raises (a : np.ndarray T) i e :
  np.getitem a i = Raise e → e = IndexError.
Proof.
  unfold np.getitem. destruct (np.shape a); [congruence|].
  destruct (decide _); congruence.
Qed.

Lemma walker_row_within self (arr : string → np.ndarray T) i :
  (∀ name, name ∈ BaseStates._names self →
     BaseStates.attr_name_ok name ∧
     BaseStates.attrs self !! name = Some (arr name) ∧
     ∃ dn, head (np.shape (arr name)) = Some dn ∧ i < dn) →
  BaseStates.walker_row self i
  = Ok ((λ name, np.row (arr name) i) <$> BaseStates._names self).
Proof.
  intros Harr. unfold BaseStates.walker_row. apply traverse_ok.
  intros name Hin. destruct (Harr name Hin) as (Hok & Ha & dn & Hhd & Hi).
  rewrite (getitem_array self name (arr name)) by done. cbn.
  by eapply getitem_row.
Qed.

Lemma walker_row_beyond self (arr : string → np.ndarray T) d :
  (∀ name, name ∈ BaseStates._names self →
     BaseStates.attr_name_ok name ∧ BaseStates.attrs self !! name = Some (arr name)) →
  (∃ name, name ∈ BaseStates._names self ∧ head (np.shape (arr name)) = Some d) →
  BaseStates.walker_row self d = Raise IndexError.
Proof.
  intros Harr (name & Hin & Hhd). unfold BaseStates.walker_row.
  apply traverse_raise.
  - intros x e' Hx. destruct (Harr x Hx) as [Hok Ha].
    rewrite (getitem_array self x (arr x)) by done. cbn. apply getitem_raises.
  - exists name. split; [done|]. destruct (Harr name Hin) as [Hok Ha].
    rewrite (getitem_array self name (arr name)) by done. cbn.
    by eapply getitem_out_of_range.
Qed.

(** X7: construction checks no shape, and iteration by walker pays for
    it.  When a well-formed container reports [N] walkers, every array has
    [d] rows at least and one has exactly [d < N], then [list] of
    [iteritems] and of [split_states], and of [itervals] if [N >= 2],
    raises [IndexError], at walker [d], and the generator is finished. *)
Theorem iteration_past_leading_dimension self N d :
  BaseStates.wf self → BaseStates.n self = Z.of_nat N → d < N →
  (∀ name, name ∈ BaseStates._names self →
     ∃ a dn, BaseStates.attrs self !! name = Some a ∧
             head (np.shape a) = Some dn ∧ d ≤ dn) →
  (∃ name a, name ∈ BaseStates._names self ∧
             BaseStates.attrs self !! name = Some a ∧ head (np.shape a) = Some d) →
  BaseStates.list_ self (BaseStates.iteritems self)
  = (Raise IndexError, BaseStates.GenIteritems BaseStates.PcDone) ∧
  BaseStates.list_ self (BaseStates.split_states self)
  = (Raise IndexError, BaseStates.GenSplitStates BaseStates.PcDone) ∧
  (2 ≤ N →
   BaseStates.list_ self (BaseStates.itervals self)
   = (Raise IndexError, BaseStates.GenItervals BaseStates.PcDone)).
Proof.
  intros Hwf Hn Hd Hall (bad & abad & Hbin & Hba & Hbhd).
  destruct (wf_getitem_total self Hwf) as [arr Harr].
  assert (∀ name, name ∈ BaseStates._names self → BaseStates.attr_name_ok name) as Hok.
  { intros name Hin. eapply Forall_forall; [apply Hwf|done]. }
  assert (∀ i, i < d →
    BaseStates.walker_row self i
    = Ok ((λ name, np.row (arr name) i) <$> BaseStates._names self)) as Hrow.
  { intros i Hi. apply walker_row_within. intros name Hin.
    destruct (Harr name Hin) as [Ha _]. destruct (Hall name Hin) as (a & dn & Ha' & Hhd & Hle).
    rewrite Ha in Ha'. injection Ha' as <-.
    split; [by apply Hok|]. split; [done|]. exists dn. split; [done|lia]. }
  assert (BaseStates.walker_row self d = Raise IndexError) as Hstop.
  { apply (walker_row_beyond self arr).
    - intros name Hin. split; [by apply Hok|by apply Harr].
    - exists bad. split; [done|]. destruct (Harr bad Hbin) as [Ha _].
      rewrite Ha in Hba. by injection Hba as ->. }
  assert (∀ i, i < d →
    BaseStates.loop_next self i N
    = (Ok (Some ((λ name, np.row (arr name) i) <$> BaseStates._names self)),
       BaseStates.PcLoop (S i) N)) as Hnext.
  { intros i Hi. apply loop_next_ok; [lia|by apply Hrow]. }
  assert (BaseStates.loop_next self d N = (Raise IndexError, BaseStates.PcDone)) as Hlast.
  { unfold BaseStates.loop_next. by rewrite decide_True, Hstop by done. }
  set (kw := λ i, (λ name, (name, np.row (arr name) i)) <$> BaseStates._names self).
  assert (∀ i, (kw i).*1 = BaseStates._names self) as Hkeys.
  { intros i. unfold kw. rewrite <- list_fmap_compose. apply list_fmap_id. }
  assert (∀ i, BaseStates.new 1
                 (dict (zip (BaseStates._names self)
                            ((λ name, np.row (arr name) i) <$> BaseStates._names self)))
               = Ok {| BaseStates._names := (kw i).*1; BaseStates._attr_dict := kw i;
                       BaseStates.attrs := BaseStates.bind_all (kw i) ∅;
                       BaseStates._n_walkers := 1 |}) as Hnew.
  { intros i. rewrite zip_fmap_self. fold (kw i).
    rewrite dict_nodup by (rewrite Hkeys; apply Hwf).
    apply new_ok. rewrite Hkeys. apply names_ok_not_n, Hwf. }
  split; [|split].
  - unfold BaseStates.list_, BaseStates.iteritems.
    replace (BaseStates.pending self (BaseStates.GenIteritems BaseStates.PcStart))
      with N by (cbn; lia).
    rewrite <- (collect_loop_raise self BaseStates.GenIteritems
                  (λ i, BaseStates.VTuple
                     [BaseStates.VTuple (BaseStates.VStr <$> BaseStates._names self);
                      BaseStates.VTuple
                        (BaseStates.VArray
                           <$> ((λ name, np.row (arr name) i) <$> BaseStates._names self))])
                  N d IndexError) with (k := d) (i := 0) (fuel := S N); [..|done|lia].
    + cbn. rewrite decide_False by lia. by rewrite Hn, Nat2Z.id.
    + intros i Hi. cbn. by rewrite Hnext.
    + cbn. by rewrite Hlast.
  - unfold BaseStates.list_, BaseStates.split_states.
    replace (BaseStates.pending self (BaseStates.GenSplitStates BaseStates.PcStart))
      with N by (cbn; lia).
    rewrite <- (collect_loop_raise self BaseStates.GenSplitStates
                  (λ i, BaseStates.VStates
                     {| BaseStates._names := (kw i).*1; BaseStates._attr_dict := kw i;
                        BaseStates.attrs := BaseStates.bind_all (kw i) ∅;
                        BaseStates._n_walkers := 1 |})
                  N d IndexError) with (k := d) (i := 0) (fuel := S N); [..|done|lia].
    + cbn. unfold BaseStates.split_states_next. cbn.
      rewrite decide_False by lia. by rewrite Hn, Nat2Z.id.
    + intros i Hi. cbn. unfold BaseStates.split_states_next. cbn.
      rewrite Hnext by done. by rewrite Hnew.
    + cbn. unfold BaseStates.split_states_next. cbn. by rewrite Hlast.
  - intros HN. unfold BaseStates.list_, BaseStates.itervals.
    replace (BaseStates.pending self (BaseStates.GenItervals BaseStates.PcStart))
      with N by (cbn; lia).
    rewrite <- (collect_loop_raise self BaseStates.GenItervals
                  (λ i, BaseStates.VTuple
                     (BaseStates.VArray
                        <$> ((λ name, np.row (arr name) i) <$> BaseStates._names self)))
                  N d IndexError) with (k := d) (i := 0) (fuel := S N); [..|done|lia].
    + cbn. rewrite decide_False by lia. by rewrite Hn, Nat2Z.id.
    + intros i Hi. cbn. by rewrite Hnext.
    + cbn. by rewrite Hlast.
Qed.

(** X10: [split_states] gives the view of every walker of a well-formed
    container.  If the container reports no walker it yields nothing; if
    it has [N >= 1] walkers it yields [N] well-formed containers, the
    [i]-th with one walker, the names of the container and, under every
    name, row [i] of the array. *)
Theorem split_states_views self :
  BaseStates.wf self →
  ((BaseStates.n self < 1)%Z →
   BaseStates.list_ self (BaseStates.split_states self)
   = (Ok [], BaseStates.GenSplitStates BaseStates.PcDone)) ∧
  (∀ N, BaseStates.batched N self → 1 ≤ N →
   ∃ parts : list (BaseStates.t T),
     BaseStates.list_ self (BaseStates.split_states self)
     = (Ok (BaseStates.VStates <$> parts), BaseStates.GenSplitStates BaseStates.PcDone) ∧
     length parts = N ∧
     ∀ i part, parts !! i = Some part →
       BaseStates.wf part ∧ BaseStates.n part = 1%Z ∧
       BaseStates._names part = BaseStates._names self ∧
       ∀ name a, name ∈ BaseStates._names self →
         BaseStates.attrs self !! name = Some a →
         BaseStates.attrs part !! name = Some (np.row a i)).
Proof.
  intros Hwf. split.
  - intros Hn. unfold BaseStates.list_, BaseStates.split_states. cbn.
    unfold BaseStates.split_states_next. cbn. by rewrite decide_True.
  - intros N. by apply split_states_batched.
Qed.

End past_leading_dimension.


(** ** [concat_states] of what [split_states] yields *)

Section concat_of_split.
Context {T : Type}.
Implicit Types (self s : BaseStates.t T) (a : np.ndarray T).
Local Arguments BaseStates.__getitem__ : simpl never.
Local Arguments BaseStates.new : simpl never.
Local Arguments np.concatenate : simpl never.
Local Arguments np.reshape : simpl never.

(** The rows of a list, put together again. *)
Lemma concat_rows (l : list T) N k :
  length l = N * k →
  concat ((λ i, take k (drop (i * k) l)) <$> seq 0 N) = l.
Proof.
  revert l. induction N as [|N IH]; intros l Hl.
  - cbn. by destruct l.
  - cbn [seq fmap list_fmap concat]. rewrite <- fmap_S_seq, <- list_fmap_compose.
    transitivity (take k l ++ drop k l); [|apply take_drop].
    f_equal; try (by rewrite drop_0).
    rewrite <- (IH (drop k l)) by (rewrite length_drop; lia).
    f_equal. apply list_fmap_ext. intros _ i _. cbn. by rewrite drop_drop.
Qed.

Lemma row_wf a N i :
  np.wf a → head (np.shape a) = Some N → i < N → np.wf (np.row a i).
Proof.
  unfold np.wf, np.row. destruct a as [[|d rest] l]; [done|].
  cbn. intros Hl [= ->] Hi. fold (np.size_of rest) in *.
  rewrite length_take, length_drop. nia.
Qed.

(** What [split_states] yields are containers of one walker whose arrays
    have the shapes of the rows. *)
Lemma parts_single_walker self N (parts : list (BaseStates.t T)) :
  BaseStates.batched N self → length parts = N →
  (∀ i part, parts !! i = Some part →
     BaseStates.wf part ∧ BaseStates.n part = 1%Z ∧
     BaseStates._names part = BaseStates._names self ∧
     ∀ name a, name ∈ BaseStates._names self →
       BaseStates.attrs self !! name = Some a →
       BaseStates.attrs part !! name = Some (np.row a i)) →
  ∀ arr : string → np.ndarray T,
    (∀ name, name ∈ BaseStates._names self →
       BaseStates.attrs self !! name = Some (arr name)) →
    Forall (BaseStates.single_walker (BaseStates._names self)
              (λ name, tail (np.shape (arr name)))) parts ∧
    ∀ name, name ∈ BaseStates._names self →
      BaseStates.column parts name = (λ i, np.row (arr name) i) <$> seq 0 N.
Proof.
  intros [_ Hb] Hlen Hparts arr Harr.
  assert (Forall (BaseStates.single_walker (BaseStates._names self)
                    (λ name, tail (np.shape (arr name)))) parts) as Hall.
  { apply Forall_lookup_2. intros i part Hi.
    destruct (Hparts i part Hi) as (Hwf & Hn & _ & Hrow).
    split; [done|]. split; [done|]. intros name Hin.
    exists (np.row (arr name) i). split; [by apply Hrow, Harr|]. split; [done|].
    destruct (Hb name _ Hin (Harr name Hin)) as [Hwfa Hhd].
    eapply row_wf; [done..|]. apply lookup_lt_Some in Hi. lia. }
  split; [done|]. intros name Hin.
  destruct (column_single_walkers _ _ _ name Hin Hall) as (Hcl & _ & Hlook & _).
  apply list_eq. intros i. rewrite list_lookup_fmap.
  destruct (parts !! i) as [part|] eqn:Hi.
  - rewrite (Hlook i part Hi).
    destruct (Hparts i part Hi) as (_ & _ & _ & Hrow).
    rewrite (Hrow name _ Hin (Harr name Hin)).
    apply lookup_lt_Some in Hi. by rewrite lookup_seq_lt by lia.
  - apply lookup_ge_None in Hi.
    rewrite (proj2 (lookup_ge_None _ _)) by lia.
    by rewrite lookup_seq_ge by lia.
Qed.

Lemma stack_rows a N :
  np.wf a → head (np.shape a) = Some N →
  np.stack (tail (np.shape a)) ((λ i, np.row a i) <$> seq 0 N) = a.
Proof.
  unfold np.wf, np.stack, np.row. destruct a as [[|d rest] l]; [done|].
  cbn. intros Hl [= ->]. fold (np.size_of rest) in *.
  rewrite length_fmap, length_seq. f_equal.
  rewrite <- list_fmap_compose. by apply concat_rows.
Qed.

(** X1: [concat_states] undoes [split_states] when every walker has an
    array, not a scalar, under every name.  For a well-formed container of
    [N >= 1] walkers whose arrays have two dimensions at least,
    [concat_states] of the containers that [split_states] yields returns a
    container with the same number of walkers, the same names and, under
    every name, the same array. *)
Theorem concat_states_inverts_split_states self N :
  BaseStates.wf self → BaseStates.batched N self → 1 ≤ N →
  (∀ name a, name ∈ BaseStates._names self →
     BaseStates.attrs self !! name = Some a → tail (np.shape a) ≠ []) →
  ∃ parts joined,
    BaseStates.list_ self (BaseStates.split_states self)
    = (Ok (BaseStates.VStates <$> parts), BaseStates.GenSplitStates BaseStates.PcDone) ∧
    BaseStates.concat_states parts = Ok joined ∧
    BaseStates.n joined = BaseStates.n self ∧
    BaseStates._names joined = BaseStates._names self ∧
    ∀ name, name ∈ BaseStates._names self →
      BaseStates.attrs joined !! name = BaseStates.attrs self !! name.
Proof.
  intros Hwf Hb HN Hdims.
  destruct (split_states_batched self N Hwf Hb HN) as (parts & Hsplit & Hlen & Hparts).
  destruct (wf_getitem_total self Hwf) as [arr Harr].
  destruct (parts_single_walker self N parts Hb Hlen Hparts arr) as [Hall Hcol].
  { intros name Hin. by apply Harr. }
  destruct parts as [|p0 rest]; [cbn in Hlen; lia|].
  assert (BaseStates._names p0 = BaseStates._names self) as Hnames0.
  { by destruct (Hparts 0 p0 eq_refl) as (_ & _ & ? & _). }
  assert (∀ name, name ∈ BaseStates._names self → tail (np.shape (arr name)) ≠ [])
    as Hschema.
  { intros name Hin. apply (Hdims name); [done|by apply Harr]. }
  destruct (concat_states_stack (BaseStates._names self)
              (λ name, tail (np.shape (arr name))) p0 rest Hnames0 Hall Hschema)
    as (joined & Hjoined & _ & Hn & Hnames & Hattrs).
  exists (p0 :: rest), joined. do 2 (split; [done|]).
  split; [rewrite Hn, Hlen; by destruct Hb as [-> _]|]. split; [done|].
  intros name Hin. rewrite (Hattrs name Hin), (Hcol name Hin).
  destruct (Harr name Hin) as [Ha _]. rewrite Ha. f_equal.
  destruct Hb as [_ Hb]. destruct (Hb name _ Hin Ha). by apply stack_rows.
Qed.

Lemma concatenate_raises (arrays : list (np.ndarray T)) e :
  np.concatenate arrays = Raise e → e = ValueError.
Proof.
  unfold np.concatenate. destruct arrays; [congruence|].
  repeat (destruct (bool_decide _)); congruence.
Qed.

Lemma reshape_raises a newshape e :
  np.reshape a newshape = Raise e → e = ValueError.
Proof.
  unfold np.reshape.
  destruct (filter _ newshape) as [|? [|??]];
    repeat (destruct (decide _)); congruence.
Qed.

(** X2: [concat_states] does not undo [split_states] when a walker has a
    scalar under some name.  For a well-formed container of [N >= 1]
    walkers with a one-dimensional array among its attributes,
    [split_states] yields [N] containers and [concat_states] of them raises
    [ValueError]: [np.concatenate] does not take zero-dimensional
    arrays. *)
Theorem concat_states_rejects_split_scalars self N :
  BaseStates.wf self → BaseStates.batched N self → 1 ≤ N →
  (∃ name a, name ∈ BaseStates._names self ∧
             BaseStates.attrs self !! name = Some a ∧ np.shape a = [N]) →
  ∃ parts,
    BaseStates.list_ self (BaseStates.split_states self)
    = (Ok (BaseStates.VStates <$> parts), BaseStates.GenSplitStates BaseStates.PcDone) ∧
    length parts = N ∧
    BaseStates.concat_states parts = Raise ValueError.
Proof.
  intros Hwf Hb HN (bad & abad & Hbin & Hba & Hbsh).
  destruct (split_states_batched self N Hwf Hb HN) as (parts & Hsplit & Hlen & Hparts).
  destruct (wf_getitem_total self Hwf) as [arr Harr].
  destruct (parts_single_walker self N parts Hb Hlen Hparts arr) as [Hall Hcol].
  { intros name Hin. by apply Harr. }
  exists parts. do 2 (split; [done|]).
  destruct parts as [|p0 rest]; [cbn in Hlen; lia|].
  destruct (Hparts 0 p0 eq_refl) as (Hwf0 & _ & Hnames0 & Hrow0).
  unfold BaseStates.concat_states. cbn [BaseStates.first_state mbind result_bind].
  rewrite list_keys. cbn [fst fmap result_fmap mbind result_bind].
  rewrite names_of_keys, Hnames0.
  assert (∀ name, name ∈ BaseStates._names self →
    ∀ nw, BaseStates.concat_attribute nw (p0 :: rest) name
          = (joined ← np.concatenate (BaseStates.column (p0 :: rest) name);
             np.reshape joined (nw :: (Z.of_nat <$> tail (np.shape (arr name))))))
    as Hattr.
  { intros name Hin nw.
    destruct (column_single_walkers _ _ _ name Hin Hall) as (_ & _ & _ & Htr).
    unfold BaseStates.concat_attribute. cbn [BaseStates.first_state mbind result_bind].
    rewrite (getitem_array p0 name (np.row (arr name) 0)).
    - cbn [mbind result_bind]. rewrite Htr. done.
    - eapply Forall_forall; [apply Hwf|done].
    - apply Hrow0; [done|by apply Harr]. }
  rewrite (for_each_raise _ _ _ ValueError); [done|..].
  - intros d name e' Hin. rewrite (Hattr name Hin).
    destruct (np.concatenate _) as [joined|e1] eqn:E1; cbn.
    + destruct (np.reshape joined _) as [r|e2] eqn:E2; cbn; [done|].
      intros [= <-]. by eapply reshape_raises.
    + intros [= <-]. by eapply concatenate_raises.
  - exists bad. split; [done|]. intros d. rewrite (Hattr bad Hbin).
    destruct (column_single_walkers _ _ _ bad Hbin Hall) as (Hcl & Hcs & _).
    assert (np.concatenate (BaseStates.column (p0 :: rest) bad) = Raise ValueError)
      as ->; [|done].
    unfold np.concatenate.
    destruct (BaseStates.column (p0 :: rest) bad) as [|c0 cs] eqn:Ec;
      [done|].
    rewrite bool_decide_eq_true_2; [done|].
    apply Exists_cons_hd. apply Forall_inv in Hcs as [-> _].
    destruct (Harr bad Hbin) as [Ha _]. rewrite Ha in Hba. injection Hba as ->.
    by rewrite Hbsh.
Qed.

End concat_of_split.


(** ** What [concat_states] returns, whatever it is given *)

Section concat_returns.
Context {T : Type}.
Implicit Types (self s : BaseStates.t T) (a : np.ndarray T).
Local Arguments BaseStates.__getitem__ : simpl never.
Local Arguments np.concatenate : simpl never.
Local Arguments np.reshape : simpl never.

Lemma traverse_inv {A B} (f : A → result B) (l : list A) (bs : list B) :
  traverse f l = Ok bs → Forall2 (λ x b, f x = Ok b) l bs.
Proof.
  revert bs. induction l as [|x l IH]; intros bs; cbn.
  - intros [= <-]. constructor.
  - destruct (f x) as [b|e] eqn:E; [|done]. cbn.
    destruct (traverse f l) as [bs'|e]; [|done]. cbn. intros [= <-].
    constructor; [done|by apply IH].
Qed.

Lemma concatenate_data (arrays : list (np.ndarray T)) b :
  np.concatenate arrays = Ok b → np.data b = concat (np.data <$> arrays).
Proof.
  unfold np.concatenate. destruct arrays as [|a0 arrays]; [done|].
  repeat (destruct (bool_decide _)); [done..| |done]. by intros [= <-].
Qed.

Lemma reshape_data a newshape b :
  np.reshape a newshape = Ok b → np.data b = np.data a.
Proof.
  unfold np.reshape.
  destruct (filter _ newshape) as [|? [|??]];
    repeat (destruct (decide _)); try done; by intros [= <-].
Qed.

Lemma reshape_leading a (n_walkers : Z) (sh : list nat) b :
  (0 ≤ n_walkers)%Z →
  np.reshape a (n_walkers :: (Z.of_nat <$> sh)) = Ok b →
  np.shape b = Z.to_nat n_walkers :: sh ∧ np.wf b.
Proof.
  intros Hn. rewrite <- (Z2Nat.id n_walkers) at 1 by done.
  change (Z.of_nat (Z.to_nat n_walkers) :: (Z.of_nat <$> sh))
    with (Z.of_nat <$> (Z.to_nat n_walkers :: sh)).
  unfold np.reshape.
  rewrite filter_neg_of_nat, filter_nonneg_of_nat, !to_nat_of_nat.
  destruct (decide _) as [Hsize|]; [|done]. intros [= <-]. split; [done|].
  unfold np.wf. by cbn [np.shape np.data].
Qed.

Lemma reshape_inferred a (n_walkers : Z) (sh : list nat) b :
  (n_walkers < 0)%Z →
  np.reshape a (n_walkers :: (Z.of_nat <$> sh)) = Ok b →
  np.shape b = length (np.data a) `div` np.size_of sh :: sh ∧ np.wf b.
Proof.
  intros Hn. unfold np.reshape.
  rewrite filter_cons_True, filter_neg_of_nat by done.
  rewrite filter_cons_False, filter_nonneg_of_nat, to_nat_of_nat by lia.
  destruct (decide _) as [[Hknown Hmod]|]; [|done]. intros [= <-].
  rewrite decide_True by done.
  assert (∀ c : nat,
            (λ d, if decide (d < 0)%Z then c else Z.to_nat d) <$> (Z.of_nat <$> sh)
            = sh) as Hsh.
  { clear. intros c. induction sh as [|d sh IH]; [done|]. rewrite !fmap_cons.
    rewrite decide_False by lia. by rewrite Nat2Z.id, IH. }
  replace (list_fmap Z nat _ (Z.of_nat <$> sh)) with sh
    by (symmetry; exact (Hsh _)).
  cbn [np.shape np.data]. split; [done|].
  unfold np.wf. cbn [np.shape np.data np.size_of foldr]. fold (np.size_of sh).
  pose proof (Nat.div_mod (length (np.data a)) (np.size_of sh) Hknown) as Hdm.
  rewrite Hmod in Hdm. lia.
Qed.
(** What [reshape] to a leading entry followed by a shape returns: the
    leading entry if it is not negative, the dimension that the size
    leaves for it otherwise. *)
Lemma reshape_shape a (n_walkers : Z) (sh : list nat) b :
  np.reshape a (n_walkers :: (Z.of_nat <$> sh)) = Ok b →
  np.wf b ∧ tail (np.shape b) = sh ∧
  head (np.shape b)
  = Some (if decide (0 ≤ n_walkers)%Z then Z.to_nat n_walkers
          else length (np.data a) `div` np.size_of sh).
Proof.
  intros Hr. destruct (decide (0 ≤ n_walkers)%Z) as [Hpos|Hneg].
  - destruct (reshape_leading _ _ _ _ Hpos Hr) as [-> Hwf]. done.
  - destruct (reshape_inferred a n_walkers sh b) as [-> Hwf]; [lia|done|done].
Qed.

Lemma concat_attribute_inv n_walkers (s0 : BaseStates.t T)
    (rest : list (BaseStates.t T)) name a :
  BaseStates.concat_attribute n_walkers (s0 :: rest) name = Ok a →
  ∃ a0 arrays joined,
    BaseStates.__getitem__ s0 (BaseStates.IStr name) = Ok (BaseStates.VArray a0) ∧
    Forall2 (λ s b, BaseStates.__getitem__ s (BaseStates.IStr name)
                    = Ok (BaseStates.VArray b)) (s0 :: rest) arrays ∧
    np.concatenate arrays = Ok joined ∧
    np.reshape joined (n_walkers :: (Z.of_nat <$> np.shape a0)) = Ok a.
Proof.
  unfold BaseStates.concat_attribute. cbn [BaseStates.first_state mbind result_bind].
  destruct (BaseStates.__getitem__ s0 _) as [v0|] eqn:E0; [|done].
  cbn [mbind result_bind].
  destruct v0 as [| | |a0| | | | |]; try done. cbn [mbind result_bind].
  destruct (traverse _ (s0 :: rest)) as [arrays|] eqn:Htr; [|done].
  cbn [mbind result_bind].
  destruct (np.concatenate arrays) as [joined|] eqn:Hc; [|done].
  cbn [mbind result_bind]. intros Hr. exists a0, arrays, joined.
  split; [done|]. split; [|done].
  apply traverse_inv in Htr. eapply Forall2_impl; [done|].
  intros s b. cbn.
  destruct (BaseStates.__getitem__ s _) as [[]|]; cbn; congruence.
Qed.

Lemma for_each_dict_inv {V} (f : string → result V) (names : list string)
    (acc d : list (string * V)) :
  for_each (λ d name, a ← f name; Ok (dict_set d name a)) names acc = Ok d →
  ∀ name, name ∈ names → ∃ v, f name = Ok v.
Proof.
  revert acc. induction names as [|name names IH]; intros acc Hd name' Hin.
  - by apply elem_of_nil in Hin.
  - cbn [for_each] in Hd. destruct (f name) as [v|] eqn:E; [|done].
    cbn [mbind result_bind] in Hd.
    apply elem_of_cons in Hin as [->|Hin]; [by exists v|by eapply IH].
Qed.

Lemma for_each_setattr_inv (kwargs : list (string * np.ndarray T))
    (d d' : gmap string (np.ndarray T)) :
  for_each (λ d kv, BaseStates.setattr d kv.1 kv.2) kwargs d = Ok d' →
  d' = BaseStates.bind_all kwargs d.
Proof.
  revert d. induction kwargs as [|[k v] kwargs IH]; intros d.
  - cbn. by intros [= <-].
  - cbn [for_each fst snd].
    destruct (BaseStates.setattr d k v) as [d1|] eqn:E; [|done].
    cbn [mbind result_bind]. intros Hd. apply IH in Hd as ->.
    unfold BaseStates.setattr in E. destruct (decide _); [done|].
    by injection E as <-.
Qed.

Lemma new_inv batch_size (kwargs : list (string * np.ndarray T)) s :
  BaseStates.new batch_size kwargs = Ok s →
  BaseStates.n s = batch_size ∧ BaseStates._names s = kwargs.*1 ∧
  BaseStates.attrs s = BaseStates.bind_all kwargs ∅.
Proof.
  unfold BaseStates.new, BaseStates.__init__. cbn.
  destruct (for_each _ kwargs ∅) as [d|] eqn:E; [|done]. cbn. intros [= <-].
  apply for_each_setattr_inv in E. done.
Qed.

Lemma getitem_bound self name a :
  BaseStates.attr_name_ok name →
  BaseStates.__getitem__ self (BaseStates.IStr name) = Ok (BaseStates.VArray a) →
  BaseStates.attrs self !! name = Some a.
Proof.
  intros Hok. rewrite getitem_str, getattr_array by done.
  destruct (BaseStates.attrs self !! name); congruence.
Qed.

(** X3: [concat_states] returns for a non-empty list only, and whenever
    it returns for well-formed containers, whatever their numbers of
    walkers and the shapes of their arrays, the result reports the sum of
    the numbers of walkers, has the names of the first container, in
    order, and binds every name to an array whose elements are those of
    the arrays that the containers bind to the name, container after
    container.  The array has as many elements as its shape says, and its
    shape is a leading dimension followed by the shape of the first
    container's array: the sum if the sum is not negative, and otherwise
    the dimension that numpy infers, the number of elements divided by the
    size of the first container's array. *)
Theorem concat_states_returns (states : list (BaseStates.t T)) joined :
  Forall BaseStates.wf states →
  BaseStates.concat_states states = Ok joined →
  ∃ s0 rest,
    states = s0 :: rest ∧
    BaseStates.n joined = sum (BaseStates.n <$> states) ∧
    BaseStates._names joined = BaseStates._names s0 ∧
    ∀ name, name ∈ BaseStates._names s0 →
      ∃ a a0 arrays,
        BaseStates.attrs joined !! name = Some a ∧
        BaseStates.attrs s0 !! name = Some a0 ∧
        Forall2 (λ s b, BaseStates.attrs s !! name = Some b) states arrays ∧
        np.data a = concat (np.data <$> arrays) ∧
        np.wf a ∧
        tail (np.shape a) = np.shape a0 ∧
        head (np.shape a)
        = Some (if decide (0 ≤ BaseStates.n joined)%Z
                then Z.to_nat (BaseStates.n joined)
                else length (np.data a) `div` np.size_of (np.shape a0)).
Proof.
  intros Hwfs. unfold BaseStates.concat_states.
  destruct states as [|s0 rest]; [done|].
  set (nw := sum (BaseStates.n <$> s0 :: rest)).
  cbn [BaseStates.first_state mbind result_bind].
  rewrite list_keys. cbn [fst fmap result_fmap mbind result_bind].
  rewrite names_of_keys.
  destruct (for_each _ (BaseStates._names s0) []) as [state_dict|] eqn:Hloop; [|done].
  cbn [mbind result_bind]. intros (Hn & Hnames & Hattrs)%new_inv.
  pose proof (Forall_inv Hwfs) as Hwf0.
  exists s0, rest. split; [done|]. split; [done|].
  pose proof (for_each_dict_inv _ _ _ _ Hloop) as Hok.
  set (g := λ name,
         match BaseStates.concat_attribute nw (s0 :: rest) name with
         | Ok a => a
         | Raise _ => np.array [] []
         end).
  rewrite (for_each_dict _ g) in Hloop.
  - injection Hloop as <-. cbn [app] in *.
    assert (((λ name, (name, g name)) <$> BaseStates._names s0).*1
            = BaseStates._names s0) as Hkeys.
    { rewrite <- list_fmap_compose. apply list_fmap_id. }
    split; [congruence|]. intros name Hin.
    assert (BaseStates.attr_name_ok name) as Hname.
    { eapply Forall_forall; [apply Hwf0|done]. }
    destruct (Hok name Hin) as [a Ha].
    destruct (concat_attribute_inv _ _ _ _ _ Ha)
      as (a0 & arrays & stacked & Ha0 & Hall & Hc & Hr).
    exists a, a0, arrays. split; [|split; [|split; [|split]]].
    + rewrite Hattrs. apply bind_all_in; [rewrite Hkeys; apply Hwf0|].
      apply list_elem_of_fmap. exists name. split; [|done].
      unfold g. by rewrite Ha.
    + by apply getitem_bound.
    + eapply Forall2_impl; [done|]. intros s b. by apply getitem_bound.
    + apply reshape_data in Hr. apply concatenate_data in Hc. congruence.
    + rewrite Hn. pose proof (reshape_data _ _ _ Hr) as ->.
      by apply reshape_shape.
  - apply Hwf0.
  - intros name _. apply not_elem_of_nil.
  - intros name Hin. destruct (Hok name Hin) as [a Ha]. unfold g. by rewrite Ha.
Qed.

End concat_returns.


(** ** Construction and enumeration *)

Section construction_items.
Context {T : Type}.
Local Arguments BaseStates.__getitem__ : simpl never.

(** X13: what goes in comes out.  A container built from bindings under
    distinct, usable names enumerates, with [items], the pairs of name and
    array that it was given, in the order given, and with [keys] and
    [vals] their two halves. *)
Theorem items_of_init (batch_size : Z) (kwargs : list (string * np.ndarray T)) :
  Forall BaseStates.attr_name_ok kwargs.*1 → NoDup kwargs.*1 →
  ∃ s,
    BaseStates.__init__ (Schema := Empty_set) batch_size None kwargs = Ok s ∧
    (BaseStates.list_ s (BaseStates.items s)).1
    = Ok ((λ kv, BaseStates.VTuple [BaseStates.VStr kv.1; BaseStates.VArray kv.2])
            <$> kwargs) ∧
    (BaseStates.list_ s (BaseStates.keys s)).1
    = Ok ((λ kv, BaseStates.VStr kv.1) <$> kwargs) ∧
    (BaseStates.list_ s (BaseStates.vals s)).1
    = Ok ((λ kv, BaseStates.VArray kv.2) <$> kwargs).
Proof.
  intros Hok Hnd.
  destruct (new_wf batch_size kwargs Hok Hnd) as (s & Hs & Hwf & _ & Hnames & _ & Hb).
  exists s. split; [done|].
  set (f := λ name, match BaseStates.attrs s !! name with
                    | Some a => BaseStates.VArray a
                    | None => BaseStates.VNone
                    end).
  assert (∀ name, name ∈ BaseStates._names s →
            BaseStates.__getitem__ s (BaseStates.IStr name) = Ok (f name)) as Hget.
  { intros name Hin. destruct (wf_getitem s name Hwf Hin) as (a & Ha & Hg).
    unfold f. by rewrite Ha. }
  assert (∀ kv, kv ∈ kwargs → f kv.1 = BaseStates.VArray kv.2) as Hf.
  { intros [k v] Hin. unfold f. cbn. by rewrite (Hb k v Hin). }
  split; [|split].
  - unfold BaseStates.list_, BaseStates.items.
    rewrite (collect_items s _ f); [|cbn; lia|done]. cbn [fst].
    rewrite Hnames, <- list_fmap_compose. f_equal.
    apply list_fmap_ext. intros i kv Hi. cbn. rewrite Hf; [done|].
    by eapply list_elem_of_lookup_2.
  - rewrite list_keys. cbn [fst]. by rewrite Hnames, <- list_fmap_compose.
  - unfold BaseStates.list_, BaseStates.vals.
    rewrite (collect_vals s _ f); [|cbn; lia|done]. cbn [fst].
    rewrite Hnames, <- list_fmap_compose. f_equal.
    apply list_fmap_ext. intros i kv Hi. cbn. apply Hf.
    by eapply list_elem_of_lookup_2.
Qed.

End construction_items.

(** ** The further properties at concrete containers *)

Section further_instances.
Local Open Scope string_scope.

Lemma grid_walkers_wf : BaseStates.wf Examples.grid_walkers.
Proof. example_wf. Qed.

Lemma grid_walkers_batched : BaseStates.batched 2 Examples.grid_walkers.
Proof.
  split; [done|]. intros name a Hin Ha.
  repeat (apply elem_of_cons in Hin as [->|Hin]; [by injection Ha as <-|]).
  by apply elem_of_nil in Hin.
Qed.

Lemma overdeclared_wf : BaseStates.wf Examples.overdeclared.
Proof. example_wf. Qed.

Lemma concat_states_inverts_split_states_witness :
  let self := Examples.grid_walkers in
  (BaseStates.wf self ∧ BaseStates.batched 2 self ∧ (1 ≤ 2)%nat ∧
   ∀ name a, name ∈ BaseStates._names self →
     BaseStates.attrs self !! name = Some a → tail (np.shape a) ≠ []) ∧
  ∃ parts joined,
    BaseStates.list_ self (BaseStates.split_states self)
    = (Ok (BaseStates.VStates <$> parts), BaseStates.GenSplitStates BaseStates.PcDone) ∧
    BaseStates.concat_states parts = Ok joined ∧
    BaseStates.n joined = BaseStates.n self ∧
    BaseStates._names joined = BaseStates._names self ∧
    ∀ name, name ∈ BaseStates._names self →
      BaseStates.attrs joined !! name = BaseStates.attrs self !! name.
Proof.
  cbn zeta.
  assert (∀ name a, name ∈ BaseStates._names Examples.grid_walkers →
            BaseStates.attrs Examples.grid_walkers !! name = Some a →
            tail (np.shape a) ≠ []) as Hdims.
  { intros name a Hin Ha.
    repeat (apply elem_of_cons in Hin as [->|Hin]; [by injection Ha as <-|]).
    by apply elem_of_nil in Hin. }
  assert (1 ≤ 2)%nat as Hle by lia.
  split; [by split; [apply grid_walkers_wf|split; [apply grid_walkers_batched|]]|].
  exact (concat_states_inverts_split_states Examples.grid_walkers 2
           grid_walkers_wf grid_walkers_batched Hle Hdims).
Defined.

Lemma concat_states_rejects_split_scalars_witness :
  let self := Examples.three_walkers in
  (BaseStates.wf self ∧ BaseStates.batched 3 self ∧ (1 ≤ 3)%nat ∧
   ∃ name a, name ∈ BaseStates._names self ∧
             BaseStates.attrs self !! name = Some a ∧ np.shape a = [3]) ∧
  ∃ parts,
    BaseStates.list_ self (BaseStates.split_states self)
    = (Ok (BaseStates.VStates <$> parts), BaseStates.GenSplitStates BaseStates.PcDone) ∧
    length parts = 3 ∧
    BaseStates.concat_states parts = Raise ValueError.
Proof.
  cbn zeta.
  assert (∃ name a, name ∈ BaseStates._names Examples.three_walkers ∧
                    BaseStates.attrs Examples.three_walkers !! name = Some a ∧
                    np.shape a = [3]) as Hscalar.
  { exists "rewards", (np.array [3] [7; 8; 9]%Z). split; [by_compute|by split]. }
  assert (1 ≤ 3)%nat as Hle by lia.
  split; [by split; [apply three_walkers_wf|split; [apply three_walkers_batched|]]|].
  exact (concat_states_rejects_split_scalars Examples.three_walkers 3
           three_walkers_wf three_walkers_batched Hle Hscalar).
Defined.

Lemma concat_states_returns_witness :
  let states := [Examples.one_walker 1 2 3; Examples.one_walker 4 5 6] in
  Forall BaseStates.wf states ∧
  ∃ joined,
    BaseStates.concat_states states = Ok joined ∧
    ∃ s0 rest,
      states = s0 :: rest ∧
      BaseStates.n joined = sum (BaseStates.n <$> states) ∧
      BaseStates._names joined = BaseStates._names s0 ∧
      ∀ name, name ∈ BaseStates._names s0 →
        ∃ a a0 arrays,
          BaseStates.attrs joined !! name = Some a ∧
          BaseStates.attrs s0 !! name = Some a0 ∧
          Forall2 (λ s b, BaseStates.attrs s !! name = Some b) states arrays ∧
          np.data a = concat (np.data <$> arrays) ∧
          np.wf a ∧
          tail (np.shape a) = np.shape a0 ∧
          head (np.shape a)
          = Some (if decide (0 ≤ BaseStates.n joined)%Z
                  then Z.to_nat (BaseStates.n joined)
                  else length (np.data a) `div` np.size_of (np.shape a0)).
Proof.
  cbn zeta.
  assert (Forall BaseStates.wf
            [Examples.one_walker 1 2 3; Examples.one_walker 4 5 6]) as Hwfs.
  { repeat (constructor; [apply one_walker_wf|]). constructor. }
  split; [exact Hwfs|].
  destruct (BaseStates.concat_states
              [Examples.one_walker 1 2 3; Examples.one_walker 4 5 6])
    as [joined|e] eqn:E.
  - exists joined. split; [reflexivity|].
    exact (concat_states_returns _ joined Hwfs E).
  - vm_compute in E. discriminate E.
Defined.

(** With a negative sum of walkers numpy infers the leading dimension:
    two containers that report minus one walker each are concatenated
    into one that reports minus two and holds an array of two rows. *)
Example concat_states_negative_walkers :
  ∃ joined,
    BaseStates.concat_states [Examples.negative_walkers 7; Examples.negative_walkers 8]
    = Ok joined ∧
    BaseStates.n joined = (-2)%Z ∧
    BaseStates.attrs joined !! "rewards" = Some (np.array [2; 1] [7; 8]%Z).
Proof. eexists. split; [by vm_compute|]. split; by vm_compute. Qed.

Lemma setitem_then_getitem_witness :
  let self := Examples.one_walker 1 2 3 in
  (BaseStates.wf self ∧ BaseStates.attr_name_ok "actions") ∧
  ∃ self',
    BaseStates.__setitem__ self "actions" (inr [7%Z]) = (Ok (), self') ∧
    BaseStates.__getitem__ self' (BaseStates.IStr "actions")
    = Ok (BaseStates.VArray (np.array [1] [7%Z])) ∧
    (∀ other, other ≠ "actions" →
       BaseStates.__getitem__ self' (BaseStates.IStr other)
       = BaseStates.__getitem__ self (BaseStates.IStr other)) ∧
    BaseStates.keys self' = BaseStates.keys self ∧
    BaseStates.n self' = BaseStates.n self ∧
    ("actions" ∉ BaseStates._names self →
     ∀ default, BaseStates.get self' "actions" default = Ok default) ∧
    BaseStates.wf self'.
Proof.
  cbn zeta.
  assert (BaseStates.attr_name_ok "actions") as Hok by name_ok.
  split; [split; [apply one_walker_wf|exact Hok]|].
  exact (setitem_then_getitem (Examples.one_walker 1 2 3) "actions" (inr [7%Z])
           (one_walker_wf 1 2 3) Hok).
Defined.

Lemma n_cannot_be_bound_witness :
  let kwargs := [("rewards", np.array [2] [10; 20]%Z); ("n", np.array [1] [2%Z])] in
  let self := Examples.two_walkers in
  ("n" ∈ kwargs.*1 ∧
   Forall (λ key, key = "n" ∨ BaseStates.attr_name_ok key) kwargs.*1 ∧
   BaseStates.wf self) ∧
  BaseStates.__init__ (Schema := Empty_set) 2 None kwargs = Raise AttributeError ∧
  BaseStates.__setitem__ self "n" (inr [2%Z]) = (Raise AttributeError, self) ∧
  BaseStates.__getitem__ self (BaseStates.IStr "n") = Ok (BaseStates.VInt 2).
Proof.
  cbn zeta.
  assert ("n" ∈ [("rewards", np.array [2] [10; 20]%Z);
                  ("n", np.array [1] [2%Z])].*1) as Hin by by_compute.
  assert (Forall (λ key, key = "n" ∨ BaseStates.attr_name_ok key)
            [("rewards", np.array [2] [10; 20]%Z);
             ("n", np.array [1] [2%Z])].*1) as Hkeys.
  { constructor; [right; name_ok|]. constructor; [by left|constructor]. }
  split; [split; [exact Hin|split; [exact Hkeys|apply two_walkers_wf]]|].
  exact (n_cannot_be_bound 2 _ Examples.two_walkers (inr [2%Z]) Hin Hkeys
           two_walkers_wf).
Defined.

Lemma getitem_list_of_names_witness :
  let self := Examples.one_walker 1 2 3 in
  (BaseStates.wf self ∧
   (∀ name, name ∈ ["rewards"; "observs"] → name ∈ BaseStates._names self) ∧
   ∃ name, name ∈ ["observs"; "actions"] ∧ BaseStates.hasattr self name = false) ∧
  (∃ arr : string → np.ndarray Z,
     (∀ name, name ∈ BaseStates._names self →
        BaseStates.attrs self !! name = Some (arr name)) ∧
     BaseStates.__getitem__ self (BaseStates.IList ["rewards"; "observs"])
     = Ok (BaseStates.VList
             ((λ name, BaseStates.VArray (arr name)) <$> ["rewards"; "observs"])) ∧
     (BaseStates.list_ self (BaseStates.vals self)).1
     = Ok ((λ name, BaseStates.VArray (arr name)) <$> BaseStates._names self)) ∧
  BaseStates.__getitem__ self (BaseStates.IList ["observs"; "actions"])
  = Raise AttributeError.
Proof.
  cbn zeta.
  assert (∀ name, name ∈ ["rewards"; "observs"] →
                  name ∈ BaseStates._names (Examples.one_walker 1 2 3)) as Hsub.
  { intros name Hin.
    repeat (apply elem_of_cons in Hin as [->|Hin]; [by_compute|]).
    by apply elem_of_nil in Hin. }
  assert (∃ name, name ∈ ["observs"; "actions"] ∧
                  BaseStates.hasattr (Examples.one_walker 1 2 3) name = false) as Hbad.
  { exists "actions". split; [by_compute|by vm_compute]. }
  split; [by split; [apply one_walker_wf|split]|].
  split.
  - exact (proj1 (getitem_list_of_names (Examples.one_walker 1 2 3)
                    ["rewards"; "observs"] (one_walker_wf 1 2 3)) Hsub).
  - exact (proj2 (getitem_list_of_names (Examples.one_walker 1 2 3)
                    ["observs"; "actions"] (one_walker_wf 1 2 3)) Hbad).
Defined.

Lemma iteration_past_leading_dimension_witness :
  let self := Examples.overdeclared in
  (BaseStates.wf self ∧ BaseStates.n self = Z.of_nat 3 ∧ (2 < 3)%nat ∧
   (∀ name, name ∈ BaseStates._names self →
      ∃ a dn, BaseStates.attrs self !! name = Some a ∧
              head (np.shape a) = Some dn ∧ (2 ≤ dn)%nat) ∧
   (∃ name a, name ∈ BaseStates._names self ∧
              BaseStates.attrs self !! name = Some a ∧ head (np.shape a) = Some 2)) ∧
  BaseStates.list_ self (BaseStates.iteritems self)
  = (Raise IndexError, BaseStates.GenIteritems BaseStates.PcDone) ∧
  BaseStates.list_ self (BaseStates.split_states self)
  = (Raise IndexError, BaseStates.GenSplitStates BaseStates.PcDone) ∧
  ((2 ≤ 3)%nat →
   BaseStates.list_ self (BaseStates.itervals self)
   = (Raise IndexError, BaseStates.GenItervals BaseStates.PcDone)).
Proof.
  cbn zeta.
  assert (∀ name, name ∈ BaseStates._names Examples.overdeclared →
            ∃ a dn, BaseStates.attrs Examples.overdeclared !! name = Some a ∧
                    head (np.shape a) = Some dn ∧ (2 ≤ dn)%nat) as Hall.
  { intros name Hin. apply list_elem_of_singleton in Hin as ->.
    exists (np.array [2] [10; 20]%Z), 2. by repeat split. }
  assert (∃ name a, name ∈ BaseStates._names Examples.overdeclared ∧
                    BaseStates.attrs Examples.overdeclared !! name = Some a ∧
                    head (np.shape a) = Some 2) as Hshort.
  { exists "rewards", (np.array [2] [10; 20]%Z). split; [by_compute|by split]. }
  assert (2 < 3)%nat as Hlt by lia.
  split; [by split; [apply overdeclared_wf|repeat split]|].
  exact (iteration_past_leading_dimension Examples.overdeclared 3 2
           overdeclared_wf eq_refl Hlt Hall Hshort).
Defined.

Lemma exhausted_generator_stays_exhausted_witness :
  let self := Examples.two_walkers in
  let done := BaseStates.list_ self (BaseStates.itervals self) in
  BaseStates.finished done.2 = true ∧
  ∀ self' : BaseStates.t Z,
    BaseStates.next self' done.2 = (Ok None, done.2) ∧
    BaseStates.list_ self' done.2 = (Ok [], done.2).
Proof.
  cbn zeta.
  exact (exhausted_generator_stays_exhausted Examples.two_walkers
           (BaseStates.itervals Examples.two_walkers) _ _
           (surjective_pairing _)).
Defined.

Lemma itervals_yields_rows_of_iteritems_witness :
  let self := Examples.three_walkers in
  (BaseStates.wf self ∧ (2 ≤ BaseStates.n self)%Z) ∧
  (BaseStates.list_ self (BaseStates.itervals self)).1
  = fmap (M := result) (fmap (M := list) BaseStates.item_values)
      (BaseStates.list_ self (BaseStates.iteritems self)).1.
Proof.
  cbn zeta.
  assert (2 ≤ BaseStates.n Examples.three_walkers)%Z as Hn by (cbn; lia).
  split; [split; [apply three_walkers_wf|exact Hn]|].
  exact (itervals_yields_rows_of_iteritems Examples.three_walkers
           three_walkers_wf Hn).
Defined.

Lemma split_states_views_witness :
  let self := Examples.three_walkers in
  (BaseStates.wf self ∧ BaseStates.batched 3 self ∧ (1 ≤ 3)%nat) ∧
  ∃ parts : list (BaseStates.t Z),
    BaseStates.list_ self (BaseStates.split_states self)
    = (Ok (BaseStates.VStates <$> parts), BaseStates.GenSplitStates BaseStates.PcDone) ∧
    length parts = 3 ∧
    ∀ i part, parts !! i = Some part →
      BaseStates.wf part ∧ BaseStates.n part = 1%Z ∧
      BaseStates._names part = BaseStates._names self ∧
      ∀ name a, name ∈ BaseStates._names self →
        BaseStates.attrs self !! name = Some a →
        BaseStates.attrs part !! name = Some (np.row a i).
Proof.
  cbn zeta.
  assert (1 ≤ 3)%nat as Hle by lia.
  split; [by split; [apply three_walkers_wf|split; [apply three_walkers_batched|]]|].
  exact (proj2 (split_states_views Examples.three_walkers three_walkers_wf) 3
           three_walkers_batched Hle).
Defined.

Lemma itervals_batched_witness :
  let self := Examples.three_walkers in
  (BaseStates.wf self ∧ BaseStates.batched 3 self ∧ (2 ≤ 3)%nat) ∧
  ∃ arr : string → np.ndarray Z,
    (∀ name, name ∈ BaseStates._names self →
       BaseStates.attrs self !! name = Some (arr name)) ∧
    BaseStates.list_ self (BaseStates.itervals self)
    = (Ok ((λ i, BaseStates.VTuple
                   ((λ name, BaseStates.VArray (np.row (arr name) i))
                      <$> BaseStates._names self)) <$> seq 0 3),
       BaseStates.GenItervals BaseStates.PcDone).
Proof.
  cbn zeta.
  assert (2 ≤ 3)%nat as Hle by lia.
  split; [by split; [apply three_walkers_wf|split; [apply three_walkers_batched|]]|].
  exact (itervals_batched Examples.three_walkers 3
           three_walkers_wf three_walkers_batched Hle).
Defined.

Lemma iteritems_batched_witness :
  let self := Examples.three_walkers in
  (BaseStates.wf self ∧ BaseStates.batched 3 self ∧ (1 ≤ 3)%nat) ∧
  ∃ arr : string → np.ndarray Z,
    (∀ name, name ∈ BaseStates._names self →
       BaseStates.attrs self !! name = Some (arr name)) ∧
    BaseStates.list_ self (BaseStates.iteritems self)
    = (Ok ((λ i, BaseStates.VTuple
                   [BaseStates.VTuple (BaseStates.VStr <$> BaseStates._names self);
                    BaseStates.VTuple
                      ((λ name, BaseStates.VArray (np.row (arr name) i))
                         <$> BaseStates._names self)]) <$> seq 0 3),
       BaseStates.GenIteritems BaseStates.PcDone).
Proof.
  cbn zeta.
  assert (1 ≤ 3)%nat as Hle by lia.
  split; [by split; [apply three_walkers_wf|split; [apply three_walkers_batched|]]|].
  exact (iteritems_batched Examples.three_walkers 3
           three_walkers_wf three_walkers_batched Hle).
Defined.

Lemma items_of_init_witness :
  let kwargs := [("observs", np.array [2; 2] [1; 2; 3; 4]%Z);
                 ("rewards", np.array [2] [0; 0]%Z)] in
  (Forall BaseStates.attr_name_ok kwargs.*1 ∧ NoDup kwargs.*1) ∧
  ∃ s,
    BaseStates.__init__ (Schema := Empty_set) 2 None kwargs = Ok s ∧
    (BaseStates.list_ s (BaseStates.items s)).1
    = Ok ((λ kv, BaseStates.VTuple [BaseStates.VStr kv.1; BaseStates.VArray kv.2])
            <$> kwargs) ∧
    (BaseStates.list_ s (BaseStates.keys s)).1
    = Ok ((λ kv, BaseStates.VStr kv.1) <$> kwargs) ∧
    (BaseStates.list_ s (BaseStates.vals s)).1
    = Ok ((λ kv, BaseStates.VArray kv.2) <$> kwargs).
Proof.
  cbn zeta.
  assert (Forall BaseStates.attr_name_ok ["observs"; "rewards"]) as Hok.
  { repeat (constructor; [name_ok|]). constructor. }
  assert (NoDup ["observs"; "rewards"]) as Hnd by by_compute.
  split; [by split|].
  exact (items_of_init 2
           [("observs", np.array [2; 2] [1; 2; 3; 4]%Z);
            ("rewards", np.array [2] [0; 0]%Z)] Hok Hnd).
Defined.

End further_instances.
